(** * WasmWiz mock server: the template renderer

    A shallow embedding of [WasmWizHandler.render_template] and of the two
    lookup helpers of [src/wasmwiz/mock_server.py], together with the part
    of Python's [str] and [re] that the renderer calls.

    Python strings are sequences of code points; they are modelled as lists
    of [ascii], so the development speaks about documents whose code points
    are below 256. *)

From Stdlib Require Import Ascii String List Bool Arith Lia Permutation.
Import ListNotations.
Local Open Scope list_scope.

(** ** Python [str] *)

Module PyStr.

Definition str := list ascii.

(** A literal of the source text. *)
Definition lit (s : string) : str := list_ascii_of_string s.

(** The double quote character, code point 34. *)
Definition dquote : ascii := "034"%char.
Definition backslash : ascii := "092"%char.

Definition str_eqb (a b : str) : bool :=
  if list_eq_dec ascii_dec a b then true else false.

(** [strip_prefix p s] is the text that follows [p] when [s] starts with
    [p]. *)
Fixpoint strip_prefix (p s : str) : option str :=
  match p, s with
  | [], _ => Some s
  | a :: p', b :: s' => if Ascii.eqb a b then strip_prefix p' s' else None
  | _ :: _, [] => None
  end.

(** [s.startswith(p)] *)
Definition startswith (p s : str) : bool :=
  match strip_prefix p s with Some _ => true | None => false end.

(** [p in s] *)
Fixpoint contains (p s : str) : bool :=
  startswith p s ||
  match s with
  | [] => false
  | _ :: s' => contains p s'
  end.

(** [str.isspace] on one code point below 256: TAB, LF, VT, FF, CR, the
    separators 28 to 31, SPACE, NEL (133) and NBSP (160). *)
Definition isspace (c : ascii) : bool :=
  let n := nat_of_ascii c in
  ((9 <=? n) && (n <=? 13)) || ((28 <=? n) && (n <=? 32))
  || (n =? 133) || (n =? 160).

Fixpoint lstrip (s : str) : str :=
  match s with
  | c :: s' => if isspace c then lstrip s' else s
  | [] => []
  end.

Definition rstrip (s : str) : str := rev (lstrip (rev s)).

(** [s.strip()] *)
Definition strip (s : str) : str := rstrip (lstrip s).

(** A matcher looks at the text that starts at the scanning position; when
    the pattern matches there it gives the text to emit in place of the
    match and the text that follows the match. *)
Definition matcher := str -> option (str * str).

(** Left-to-right replacement of all non-overlapping matches, the loop
    shared by [str.replace] and [re.sub]: where the pattern matches, the
    replacement is emitted and the scan resumes after the match; elsewhere
    one character is copied. *)
Fixpoint scan_fuel (fuel : nat) (m : matcher) (s : str) : str :=
  match fuel with
  | 0 => s
  | S fuel' =>
      match m s with
      | Some (out, rest) => out ++ scan_fuel fuel' m rest
      | None =>
          match s with
          | [] => []
          | c :: s' => c :: scan_fuel fuel' m s'
          end
      end
  end.

Definition scan (m : matcher) (s : str) : str :=
  scan_fuel (S (length s)) m s.

Definition replace_at (old new : str) : matcher :=
  fun s => option_map (fun rest => (new, rest)) (strip_prefix old s).

(** [s.replace(old, new)].  With an empty [old] Python puts [new] before
    every character and at the end. *)
Definition replace (old new s : str) : str :=
  match old with
  | [] => new ++ flat_map (fun c => c :: new) s
  | _ :: _ => scan (replace_at old new) s
  end.

End PyStr.

Export PyStr.

(** ** Exceptions and results *)

(** The exceptions [render_template] can let escape: [OSError] when
    [open] fails on a path that [os.path.exists] accepted, and the errors
    of [re]'s replacement-template parser ([re.error], [IndexError]). *)
Inductive exn := OSError | TemplateError.

Inductive result (A : Type) :=
| Ok (a : A)
| Raise (e : exn).
Arguments Ok {A} a.
Arguments Raise {A} e.

Definition bind {A B} (r : result A) (k : A -> result B) : result B :=
  match r with
  | Ok a => k a
  | Raise e => Raise e
  end.

Notation "x <- r ;; k" := (bind r (fun x => k))
  (at level 61, r at next level, right associativity).

(** ** The part of Python's [re] that the renderer uses *)

Module PyRe.

(** *** Replacement templates

    [re.sub] with a string replacement parses it as a template before it
    looks for matches ([parse_template] of CPython 3.12's [re._parser]).
    The two block patterns given to [re.sub] have no capture group, so the
    only group a template may refer to is group 0, the whole match. *)

Inductive titem :=
| TLit (c : ascii)
| TGroup0.

Definition is_digit (c : ascii) : bool :=
  let n := nat_of_ascii c in (48 <=? n) && (n <=? 57).

Definition is_octdigit (c : ascii) : bool :=
  let n := nat_of_ascii c in (48 <=? n) && (n <=? 55).

Definition is_ascii_letter (c : ascii) : bool :=
  let n := nat_of_ascii c in
  ((65 <=? n) && (n <=? 90)) || ((97 <=? n) && (n <=? 122)).

Definition digit_value (c : ascii) : nat := nat_of_ascii c - 48.

(** [int(name)] for a name made of decimal digits. *)
Definition decimal (name : str) : nat :=
  fold_left (fun acc c => 10 * acc + digit_value c) name 0.

(** [ESCAPES]: the escapes that stand for one character. *)
Definition escape_char (c : ascii) : option ascii :=
  if Ascii.eqb c "a"%char then Some "007"%char
  else if Ascii.eqb c "b"%char then Some "008"%char
  else if Ascii.eqb c "f"%char then Some "012"%char
  else if Ascii.eqb c "n"%char then Some "010"%char
  else if Ascii.eqb c "r"%char then Some "013"%char
  else if Ascii.eqb c "t"%char then Some "009"%char
  else if Ascii.eqb c "v"%char then Some "011"%char
  else if Ascii.eqb c backslash then Some backslash
  else None.

(** [Tokenizer.getuntil]: the text before the first [terminator] and the
    text after it. *)
Fixpoint getuntil (terminator : ascii) (s : str) : option (str * str) :=
  match s with
  | [] => None
  | c :: s' =>
      if Ascii.eqb c terminator then Some ([], s')
      else option_map (fun '(name, rest) => (c :: name, rest))
                      (getuntil terminator s')
  end.

(** The number of groups of the pattern, [pattern.groups]. *)
Definition pattern_groups : nat := 0.

(** The escape made of a backslash and [c], followed by [s]: the template
    items it stands for and the text left after it.  Every error of the
    parser is [TemplateError]. *)
Definition parse_escape (c : ascii) (s : str) : result (list titem * str) :=
  if Ascii.eqb c "g"%char then
    match s with
    | lt :: s1 =>
        if Ascii.eqb lt "<"%char then
          match getuntil ">"%char s1 with
          | Some (name, rest) =>
              match name with
              | [] => Raise TemplateError          (* missing group name *)
              | _ :: _ =>
                  if forallb is_digit name then
                    if decimal name <=? pattern_groups
                    then Ok ([TGroup0], rest)
                    else Raise TemplateError       (* invalid group reference *)
                  else Raise TemplateError         (* bad or unknown group name *)
              end
          | None => Raise TemplateError            (* missing >, unterminated *)
          end
        else Raise TemplateError                   (* missing < *)
    | [] => Raise TemplateError                    (* missing < *)
    end
  else if Ascii.eqb c "0"%char then
    match s with
    | d1 :: s1 =>
        if is_octdigit d1 then
          match s1 with
          | d2 :: s2 =>
              if is_octdigit d2
              then Ok ([TLit (ascii_of_nat
                                ((8 * digit_value d1 + digit_value d2) mod 256))],
                       s2)
              else Ok ([TLit (ascii_of_nat (digit_value d1))], s1)
          | [] => Ok ([TLit (ascii_of_nat (digit_value d1))], s1)
          end
        else Ok ([TLit zero], s)
    | [] => Ok ([TLit zero], s)
    end
  else if is_digit c then
    match s with
    | d1 :: d2 :: s2 =>
        if is_digit d1 && (is_octdigit c && is_octdigit d1 && is_octdigit d2)
        then
          let v := 64 * digit_value c + 8 * digit_value d1 + digit_value d2 in
          if 255 <? v then Raise TemplateError     (* octal escape out of range *)
          else Ok ([TLit (ascii_of_nat v)], s2)
        else Raise TemplateError                   (* invalid group reference *)
    | _ => Raise TemplateError                     (* invalid group reference *)
    end
  else
    match escape_char c with
    | Some e => Ok ([TLit e], s)
    | None =>
        if is_ascii_letter c then Raise TemplateError   (* bad escape *)
        else Ok ([TLit backslash; TLit c], s)
    end.

Fixpoint parse_template_fuel (fuel : nat) (s : str) : result (list titem) :=
  match s with
  | [] => Ok []
  | c :: s' =>
      match fuel with
      | 0 => Raise TemplateError
      | S fuel' =>
          if Ascii.eqb c backslash then
            match s' with
            | [] => Raise TemplateError            (* bad escape (end of pattern) *)
            | e :: s'' =>
                ir <- parse_escape e s'' ;;
                tl <- parse_template_fuel fuel' (snd ir) ;;
                Ok (fst ir ++ tl)
            end
          else
            tl <- parse_template_fuel fuel' s' ;;
            Ok (TLit c :: tl)
      end
  end.

(** One step consumes at least one character, so the length of the
    template is enough fuel. *)
Definition parse_template (s : str) : result (list titem) :=
  parse_template_fuel (length s) s.

(** [match.expand] for a parsed template: group 0 is the matched text. *)
Definition expand_template (t : list titem) (whole : str) : str :=
  flat_map (fun i => match i with TLit c => [c] | TGroup0 => whole end) t.

(** *** The block patterns

    [{% block NAME %}(.*?){% endblock %}] with [re.DOTALL]; the source
    writes it for the names [content] and [title]. *)

Definition block_open (name : str) : str :=
  lit "{% block " ++ name ++ lit " %}".

Definition block_close : str := lit "{% endblock %}".

(** The lazy [.*?] followed by the literal [l]: the shortest text after
    which [l] occurs; [(text before l, text after l)]. *)
Fixpoint lazy_any_then (l : str) (s : str) : option (str * str) :=
  match strip_prefix l s with
  | Some rest => Some ([], rest)
  | None =>
      match s with
      | [] => None
      | c :: s' =>
          option_map (fun '(g, rest) => (c :: g, rest)) (lazy_any_then l s')
      end
  end.

(** The block pattern tried at the start of [s]: group 1 and the text
    after the match. *)
Definition match_block_at (name : str) (s : str) : option (str * str) :=
  match strip_prefix (block_open name) s with
  | Some s1 => lazy_any_then block_close s1
  | None => None
  end.

(** The leftmost position at which a pattern matches. *)
Fixpoint search {A} (m : str -> option A) (s : str) : option A :=
  match m s with
  | Some r => Some r
  | None =>
      match s with
      | [] => None
      | _ :: s' => search m s'
      end
  end.

(** [re.search(r'{% block NAME %}(.*?){% endblock %}', s, re.DOTALL)],
    reduced to [group(1)] of the match. *)
Definition search_block (name : str) (s : str) : option str :=
  option_map fst (search (match_block_at name) s).

Definition sub_block_at (name : str) (t : list titem) : matcher :=
  fun s =>
    match match_block_at name s with
    | Some (g, rest) =>
        Some (expand_template t (block_open name ++ g ++ block_close), rest)
    | None => None
    end.

(** [re.sub(r'{% block NAME %}.*?{% endblock %}', repl, s, flags=re.DOTALL)] *)
Definition sub_block (name : str) (repl : str) (s : str) : result str :=
  t <- parse_template repl ;;
  Ok (scan (sub_block_at name t) s).

(** *** The conditional class pattern

    Writing Q for the double quote, the pattern is
    [class=Q([^Q]*?){% if active_page == Q([^Q]+)Q %}active{% endif %}([^Q]*?)Q]. *)

Definition is_dquote (c : ascii) : bool := Ascii.eqb c dquote.

Definition class_open : str := lit "class=" ++ [dquote].
Definition if_open : str := lit "{% if active_page == " ++ [dquote].
Definition if_close : str := dquote :: lit " %}active{% endif %}".

(** The lazy [[^Q]*?] followed by the literal [l]. *)
Fixpoint lazy_nonquote_then (l : str) (s : str) : option (str * str) :=
  match strip_prefix l s with
  | Some rest => Some ([], rest)
  | None =>
      match s with
      | [] => None
      | c :: s' =>
          if is_dquote c then None
          else option_map (fun '(g, rest) => (c :: g, rest))
                          (lazy_nonquote_then l s')
      end
  end.

(** The longest run of characters other than the double quote, and the
    text after it. *)
Fixpoint span_nonquote (s : str) : str * str :=
  match s with
  | [] => ([], [])
  | c :: s' =>
      if is_dquote c then ([], s)
      else let '(g, rest) := span_nonquote s' in (c :: g, rest)
  end.

(** The class pattern tried at the start of [s]: groups 1, 2, 3 and the
    text after the match.  [if_open] ends with the only double quote it
    has and [if_close] starts with its only one, so at most one way of
    matching exists: group 1 stops at the first [if_open], the greedy
    group 2 is the whole run up to the next double quote, and group 3
    the run up to the one after. *)
Definition match_class_at (s : str) : option (str * str * str * str) :=
  match strip_prefix class_open s with
  | None => None
  | Some s1 =>
      match lazy_nonquote_then if_open s1 with
      | None => None
      | Some (g1, s2) =>
          let '(g2, s3) := span_nonquote s2 in
          match g2 with
          | [] => None
          | _ :: _ =>
              match strip_prefix if_close s3 with
              | None => None
              | Some s4 =>
                  match lazy_nonquote_then [dquote] s4 with
                  | None => None
                  | Some (g3, rest) => Some (g1, g2, g3, rest)
                  end
              end
          end
      end
  end.

End PyRe.

Export PyRe.

(** ** The renderer of [mock_server.py] *)

Module MockServer.

(** What [os.path.exists] and [open] find at a path: nothing; something
    that exists and that [open] refuses (a directory, a file without read
    permission); a file and its text. *)
Inductive file :=
| Absent
| Unreadable
| Readable (text : str).

Definition filesystem := str -> file.

(** The context dictionary, in insertion order; its keys are distinct. *)
Definition context := list (str * str).

(** [context.get(key, default)] *)
Fixpoint get (ctx : context) (key default : str) : str :=
  match ctx with
  | [] => default
  | (k, v) :: ctx' => if str_eqb k key then v else get ctx' key default
  end.

Definition TEMPLATES_DIR : str := lit "/workspaces/WasmWiz/wasmwiz/templates".

(** [os.path.join(TEMPLATES_DIR, 'base.html')] *)
Definition base_path : str := TEMPLATES_DIR ++ lit "/" ++ lit "base.html".

(** The literal tested at line 111. *)
Definition extends_marker : str :=
  lit "{% extends " ++ [dquote] ++ lit "base.html" ++ [dquote] ++ lit " %}".

(** Lines 118 to 125: the content block of the child goes into the base. *)
Definition splice_content (content base_content : str) : result str :=
  match search_block (lit "content") content with
  | Some g => sub_block (lit "content") (strip g) base_content
  | None => Ok base_content
  end.

(** Lines 127 to 134: the title block of the child, or the title of the
    context, goes into the base. *)
Definition splice_title (content : str) (ctx : context) (rendered : str)
  : result str :=
  match search_block (lit "title") content with
  | Some g => sub_block (lit "title") (strip g) rendered
  | None =>
      sub_block (lit "title") (get ctx (lit "title") (lit "WasmWiz")) rendered
  end.

(** The two states of the composer: line 111 tests whether the literal
    occurs in the document. *)
Inductive state := Standalone | Inheriting.

Definition state_of (content : str) : state :=
  if contains extends_marker content then Inheriting else Standalone.

(** Lines 110 to 138: the document handed to variable substitution. *)
Definition compose (fs : filesystem) (content : str) (ctx : context)
  : result str :=
  match state_of content with
  | Inheriting =>
      match fs base_path with
      | Readable base_content =>
          rendered <- splice_content content base_content ;;
          splice_title content ctx rendered
      | Unreadable => Raise OSError
      | Absent => Ok content
      end
  | Standalone => Ok content
  end.

Definition placeholder (key : str) : str := lit "{{ " ++ key ++ lit " }}".

(** Lines 140 to 142: one [str.replace] per key, in the order of the
    dictionary.  The values are strings, on which [str(value)] is the
    value. *)
Definition substitute (ctx : context) (rendered : str) : str :=
  fold_left (fun r kv => replace (placeholder (fst kv)) (snd kv) r)
            ctx rendered.

(** The replacement function of line 148. *)
Definition class_repl (active_page : str) : matcher :=
  fun s =>
    match match_class_at s with
    | Some (g1, g2, g3, rest) =>
        Some (class_open ++ g1
                ++ (if str_eqb active_page g2 then lit "active" else [])
                ++ g3 ++ [dquote],
              rest)
    | None => None
    end.

(** Lines 144 to 150. *)
Definition resolve_active (ctx : context) (rendered : str) : str :=
  scan (class_repl (get ctx (lit "active_page") [])) rendered.

(** Lines 107 to 152. *)
Definition render_template (fs : filesystem) (content : str) (ctx : context)
  : result str :=
  rendered <- compose fs content ctx ;;
  Ok (resolve_active ctx (substitute ctx rendered)).

(** [dict.get] on the two literal tables of the helpers. *)
Fixpoint table_get (table : list (string * string)) (route default : str)
  : str :=
  match table with
  | [] => default
  | (k, v) :: table' =>
      if str_eqb (lit k) route then lit v else table_get table' route default
  end.

Definition get_page_title (route : str) : str :=
  table_get
    [ ("/", "Execute WebAssembly - WasmWiz");
      ("/api-keys", "API Key Management - WasmWiz");
      ("/docs", "API Documentation - WasmWiz");
      ("/examples", "WebAssembly Examples - WasmWiz");
      ("/pricing", "Pricing Plans - WasmWiz");
      ("/faq", "Frequently Asked Questions - WasmWiz");
      ("/support", "Get Support - WasmWiz");
      ("/security", "Security & Compliance - WasmWiz");
      ("/terms", "Terms of Service - WasmWiz");
      ("/privacy", "Privacy Policy - WasmWiz") ]%string
    route (lit "WasmWiz - WebAssembly Execution API").

Definition get_active_page (route : str) : str :=
  table_get
    [ ("/", "index");
      ("/api-keys", "api-keys");
      ("/docs", "docs");
      ("/examples", "examples");
      ("/pricing", "pricing");
      ("/faq", "faq");
      ("/support", "support");
      ("/security", "security");
      ("/terms", "terms");
      ("/privacy", "privacy") ]%string
    route [].

(** The context built by [serve_template] at lines 89 to 93. *)
Definition serve_context (route : str) : context :=
  [ (lit "title", get_page_title route);
    (lit "csrf_token", lit "mock-csrf-token-123");
    (lit "active_page", get_active_page route) ].

End MockServer.

Export MockServer.

(** ** Vocabulary of the statements *)

(** A matcher that succeeds consumes a non-empty prefix of the text it was
    given. *)
Definition consuming (m : matcher) : Prop :=
  forall s out rest,
    m s = Some (out, rest) -> exists u, u <> [] /\ s = u ++ rest.

(** [matches_before m n s]: the pattern matches at one of the first [n]
    positions of [s]. *)
Fixpoint matches_before {A} (m : str -> option A) (n : nat) (s : str) : bool :=
  match n with
  | 0 => false
  | S n' =>
      match m s with
      | Some _ => true
      | None =>
          match s with
          | [] => false
          | _ :: s' => matches_before m n' s'
          end
      end
  end.

(** Texts without a given character. *)
Definition lacks (c : ascii) (s : str) : bool :=
  forallb (fun x => negb (Ascii.eqb x c)) s.

Definition quote_free (s : str) : bool := lacks dquote s.

Definition backslash_free (s : str) : bool := lacks backslash s.

Definition brace_free (s : str) : bool :=
  lacks "{"%char s && lacks "}"%char s.

(** The text of one conditional class attribute: the literal class text
    [g1] and [g3] around the directive that compares [active_page] with
    [target]. *)
Definition class_fragment (g1 target g3 : str) : str :=
  class_open ++ g1 ++ if_open ++ target ++ if_close ++ g3 ++ [dquote].

(** A document holding one block: [pre], the open marker, [inner], the close
    marker, [post]. *)
Definition with_block (name pre inner post : str) : str :=
  pre ++ block_open name ++ inner ++ block_close ++ post.

(** The block of [with_block name pre inner post] is the first one of the
    document: the pattern matches nowhere in [pre], and the close marker
    occurs nowhere in [inner]. *)
Definition first_block (name pre inner post : str) : bool :=
  negb (matches_before (match_block_at name) (length pre)
                       (with_block name pre inner post))
  && negb (matches_before (strip_prefix block_close) (length inner)
                          (inner ++ block_close ++ post)).

(** A document with conditional class attributes: each occurrence has the
    text before it, the literal class text on both sides of the directive
    and the target of the directive; [tail] is the text after the last
    one. *)
Record occurrence := {
  before : str;
  class_before : str;
  target : str;
  class_after : str
}.

Fixpoint document (occs : list occurrence) (tail : str) : str :=
  match occs with
  | [] => tail
  | o :: occs' =>
      before o ++ class_fragment (class_before o) (target o) (class_after o)
        ++ document occs' tail
  end.

(** An occurrence is independent of the ones around it: the text before
    it holds no opening of a conditional directive, and the three parts of
    the attribute are texts without double quote, the target not empty. *)
Definition independent (o : occurrence) : bool :=
  negb (contains if_open (before o))
  && quote_free (class_before o)
  && quote_free (target o)
  && negb (str_eqb (target o) [])
  && quote_free (class_after o).

(** The token the resolver is to emit for a target. *)
Definition emitted (active_page target : str) : str :=
  if str_eqb active_page target then lit "active" else [].

(** The document with every directive replaced by its token. *)
Fixpoint resolved (active_page : str) (occs : list occurrence) (tail : str)
  : str :=
  match occs with
  | [] => tail
  | o :: occs' =>
      before o
        ++ (class_open ++ class_before o ++ emitted active_page (target o)
              ++ class_after o ++ [dquote])
        ++ resolved active_page occs' tail
  end.

(** A navigation bar with two conditional class attributes and an ordinary
    class attribute before them. *)
Definition nav_example : list occurrence :=
  [ {| before := lit "<li class=" ++ [dquote] ++ lit "item" ++ [dquote]
                   ++ lit "><a ";
       class_before := lit "nav-link ";
       target := lit "docs";
       class_after := [] |};
    {| before := lit " href=/docs>Docs</a><a ";
       class_before := lit "nav-link ";
       target := lit "faq";
       class_after := lit " last" |} ].

(** A document seen as plain text and placeholders. *)
Inductive piece :=
| Text (t : str)
| Hole (key : str).

Definition piece_text (p : piece) : str :=
  match p with
  | Text t => t
  | Hole k => placeholder k
  end.

Definition flatten (ps : list piece) : str := flat_map piece_text ps.

(** Plain text cannot start a placeholder: it has no two open braces in a
    row and does not end with an open brace. *)
Definition plain (t : str) : bool :=
  negb (contains (lit "{{") t)
  && match rev t with
     | c :: _ => negb (Ascii.eqb c "{"%char)
     | [] => true
     end.

Definition well_formed (p : piece) : bool :=
  match p with
  | Text t => plain t
  | Hole k => brace_free k
  end.

(** The keys of the context have no brace and its values are plain. *)
Definition plain_context (ctx : context) : Prop :=
  Forall (fun kv => brace_free (fst kv) = true /\ plain (snd kv) = true) ctx.

(** Simultaneous substitution: every placeholder gets the value of its
    key, or stays when the context has no such key. *)
Definition fill (ctx : context) (p : piece) : str :=
  match p with
  | Text t => t
  | Hole k => get ctx k (placeholder k)
  end.

Definition simultaneous (ctx : context) (ps : list piece) : str :=
  flat_map (fill ctx) ps.

(** One key filled in. *)
Definition fill_key (k v : str) (p : piece) : piece :=
  match p with
  | Text t => Text t
  | Hole k' => if str_eqb k k' then Text v else Hole k'
  end.

(** The replacement texts that composing [content] hands to [re.sub]: the
    stripped content block of the child when it has one, and its stripped
    title block or else the title of the context. *)
Definition replacements (content : str) (ctx : context) : list str :=
  match search_block (lit "content") content with
  | Some g => [strip g]
  | None => []
  end
  ++ [ match search_block (lit "title") content with
       | Some g => strip g
       | None => get ctx (lit "title") (lit "WasmWiz")
       end ].

(** A templates directory that holds at most [base.html]. *)
Definition only_base (f : file) : filesystem :=
  fun path => if str_eqb path base_path then f else Absent.

(** The extends directive for a base document of a given name; the
    literal of line 111 is the one for [base.html]. *)
Definition extends_directive (name : str) : str :=
  lit "{% extends " ++ [dquote] ++ name ++ [dquote] ++ lit " %}".

(** A base with a title block and a content block. *)
Definition two_block_base : str :=
  lit "<t>{% block title %}x{% endblock %}</t><b>{% block content %}D{% endblock %}</b>".

(** A child whose content block is closed and whose title block is not. *)
Definition unclosed_title_child : str :=
  extends_marker ++ lit "{% block content %}C{% endblock %}{% block title %}T".

(** A child whose title block is closed and holds an unknown escape, and
    whose content block is not closed. *)
Definition unclosed_content_child : str :=
  extends_marker
  ++ lit "{% block title %}a\qb{% endblock %}{% block content %}never closed".

(** The directive inside a comment. *)
Definition commented_directive : str :=
  lit "<!-- " ++ extends_marker ++ lit " -->".

(** A base that holds no block. *)
Definition plain_base : str := lit "<p>base</p>".

(** A templates directory with [base.html] and one more file. *)
Definition base_and_other : filesystem :=
  fun path =>
    if str_eqb path (lit "other.html") then Readable (lit "other")
    else Readable plain_base.

(** ** The request handler of [mock_server.py] *)

Module Handler.

(** [s.endswith(suffix)] *)
Definition endswith (suffix s : str) : bool :=
  startswith (rev suffix) (rev s).

(** [os.path.join(a, b)] of [posixpath]: an absolute [b] replaces [a];
    otherwise [b] is appended, after a separator unless [a] is empty or ends
    with one. *)
Definition path_join (a b : str) : str :=
  if startswith (lit "/") b then b
  else
    match a with
    | [] => b
    | _ :: _ => if endswith (lit "/") a then a ++ b else a ++ lit "/" ++ b
    end.

Definition STATIC_DIR : str := lit "/workspaces/WasmWiz/wasmwiz/static".

(** What the handler sends: a 200 response with its [Content-Type], its
    [Content-Length] and its body; [send_error(code, message)]; or
    [send_error(500, prefix + str(e))] for a caught exception [e], whose
    text is not modelled. *)
Inductive response :=
| Response (content_type : str) (content_length : nat) (body : str)
| SendError (code : nat) (message : str)
| ServerError (prefix : str) (e : exn).

(** The disk as the handler reads it: in text mode with UTF-8 decoding
    (templates) and in binary mode (static files, a byte per [ascii]). *)
Record disk := {
  text_of : filesystem;
  bytes_of : filesystem
}.

(** [s.encode('utf-8')] for code points below 256: one byte below 128, two
    bytes from 128 on. *)
Definition utf8_char (c : ascii) : str :=
  let n := nat_of_ascii c in
  if n <? 128 then [c]
  else [ascii_of_nat (192 + n / 64); ascii_of_nat (128 + n mod 64)].

Definition utf8_encode (s : str) : str := flat_map utf8_char s.

(** The chain of suffix tests at lines 55 to 62. *)
Definition content_type_of (filepath : str) : str :=
  if endswith (lit ".css") filepath then lit "text/css"
  else if endswith (lit ".js") filepath then lit "application/javascript"
  else if endswith (lit ".ico") filepath then lit "image/x-icon"
  else lit "application/octet-stream".

(** Lines 46 to 74. *)
Definition serve_static_file (fs : filesystem) (filepath : str) : response :=
  let full_path := path_join STATIC_DIR filepath in
  match fs full_path with
  | Absent => SendError 404 (lit "Static file not found: " ++ filepath)
  | Unreadable => ServerError (lit "Error serving static file: ") OSError
  | Readable content =>
      Response (content_type_of filepath) (length content) content
  end.

(** Lines 76 to 105. *)
Definition serve_template (fs : filesystem) (template_file route : str)
  : response :=
  let template_path := path_join TEMPLATES_DIR template_file in
  match fs template_path with
  | Absent => SendError 404 (lit "Template not found: " ++ template_file)
  | Unreadable => ServerError (lit "Error rendering template: ") OSError
  | Readable content =>
      match render_template fs content (serve_context route) with
      | Ok rendered =>
          Response (lit "text/html; charset=utf-8")
                   (length (utf8_encode rendered)) (utf8_encode rendered)
      | Raise e => ServerError (lit "Error rendering template: ") e
      end
  end.

(** [route_map] of lines 27 to 38. *)
Definition route_map : list (string * string) :=
  [ ("/", "index.html");
    ("/api-keys", "api_keys.html");
    ("/docs", "docs.html");
    ("/examples", "examples.html");
    ("/pricing", "pricing.html");
    ("/faq", "faq.html");
    ("/support", "support.html");
    ("/security", "security.html");
    ("/terms", "terms.html");
    ("/privacy", "privacy.html") ]%string.

(** [table.get(key)] *)
Fixpoint table_find (table : list (string * string)) (key : str)
  : option str :=
  match table with
  | [] => None
  | (k, v) :: table' =>
      if str_eqb (lit k) key then Some (lit v) else table_find table' key
  end.

(** Lines 17 to 44.  [urlparse_path] stands for [urlparse(...).path] of
    [urllib.parse]; [self_path] is the request target. *)
Definition do_GET (urlparse_path : str -> str) (d : disk) (self_path : str)
  : response :=
  let path := urlparse_path self_path in
  if startswith (lit "/static/") path then
    serve_static_file (bytes_of d) (skipn 8 path)
  else
    match table_find route_map path with
    | Some ((_ :: _) as template_file) =>
        serve_template (text_of d) template_file path
    | _ => SendError 404 (lit "Page not found: " ++ path)
    end.

End Handler.

Export Handler.

(** The number of code points from 128 on. *)
Definition count_non_ascii (s : str) : nat :=
  length (filter (fun c => negb (nat_of_ascii c <? 128)) s).

(** A disk whose binary view holds one file. *)
Definition one_static_file (path content : str) : disk :=
  {| text_of := fun _ => Absent;
     bytes_of := fun p => if str_eqb p path then Readable content else Absent |}.

(** A disk whose text view holds one template and, maybe, [base.html]. *)
Definition template_disk (template_file content : str) (base : file) : disk :=
  {| text_of := fun p =>
       if str_eqb p (path_join TEMPLATES_DIR template_file)
       then Readable content
       else if str_eqb p base_path then base else Absent;
     bytes_of := fun _ => Absent |}.

(** Request targets that [urlparse] leaves whole (one leading slash, no
    query, no fragment, no parameters): the path is the target. *)
Definition plain_target (self_path : str) : str := self_path.

(** All the keys of a context filled in, one key after the other. *)
Definition fill_all (ctx : context) (ps : list piece) : list piece :=
  fold_left (fun qs kv => map (fill_key (fst kv) (snd kv)) qs) ctx ps.

(** No hole of the document is for the key [k]. *)
Definition hole_free (k : str) (ps : list piece) : bool :=
  forallb (fun p => match p with
                    | Text _ => true
                    | Hole k' => negb (str_eqb k k')
                    end) ps.

(** * Properties *)

(** The literals of the source stay folded in the goals. *)
Arguments lit : simpl never.
Arguments block_open : simpl never.
Arguments block_close : simpl never.
Arguments class_open : simpl never.
Arguments if_open : simpl never.
Arguments if_close : simpl never.
Arguments extends_marker : simpl never.
Arguments placeholder : simpl never.
Arguments base_path : simpl never.

(** ** Prefixes and occurrences *)

Section Prefixes.

Lemma strip_prefix_app (p r : str) : strip_prefix p (p ++ r) = Some r.
Proof.
  induction p as [|a p IH]; simpl; [reflexivity|].
  now rewrite Ascii.eqb_refl.
Qed.

Lemma strip_prefix_Some (p s r : str) :
  strip_prefix p s = Some r -> s = p ++ r.
Proof.
  revert s; induction p as [|a p IH]; intros s H; simpl in *.
  - now injection H.
  - destruct s as [|b s]; [discriminate|].
    destruct (Ascii.eqb_spec a b) as [->|]; [|discriminate].
    now rewrite (IH _ H).
Qed.

Lemma startswith_app (p r : str) : startswith p (p ++ r) = true.
Proof. unfold startswith. now rewrite strip_prefix_app. Qed.

Lemma startswith_true (p s : str) :
  startswith p s = true -> exists r, s = p ++ r.
Proof.
  unfold startswith. destruct (strip_prefix p s) as [r|] eqn:E; [|discriminate].
  intros _. exists r. now apply strip_prefix_Some.
Qed.

Lemma contains_occurrence (p pre post : str) :
  contains p (pre ++ p ++ post) = true.
Proof.
  induction pre as [|c pre IH]; simpl.
  - pose proof (startswith_app p post) as H.
    destruct (p ++ post); simpl; now rewrite H.
  - rewrite IH. apply orb_true_r.
Qed.

Lemma contains_true (p s : str) :
  contains p s = true -> exists pre post, s = pre ++ p ++ post.
Proof.
  induction s as [|c s IH]; simpl; intros H.
  - rewrite orb_false_r in H. apply startswith_true in H as [r Hr].
    exists [], r. exact Hr.
  - apply orb_true_iff in H as [H|H].
    + apply startswith_true in H as [r Hr]. exists [], r. exact Hr.
    + destruct (IH H) as (pre & post & ->). now exists (c :: pre), post.
Qed.

Lemma contains_iff (p s : str) :
  contains p s = true <-> exists pre post, s = pre ++ p ++ post.
Proof.
  split; [apply contains_true|].
  intros (pre & post & ->). apply contains_occurrence.
Qed.

Lemma contains_false_tail (p : str) (c : ascii) (s : str) :
  contains p (c :: s) = false -> contains p s = false.
Proof. simpl. intros H. now apply orb_false_iff in H. Qed.

Lemma lacks_app (c : ascii) (a b : str) :
  lacks c (a ++ b) = lacks c a && lacks c b.
Proof. apply forallb_app. Qed.

Lemma lacks_In (c : ascii) (s : str) : lacks c s = true -> ~ In c s.
Proof.
  unfold lacks. rewrite forallb_forall. intros H Hin.
  specialize (H _ Hin). rewrite Ascii.eqb_refl in H. discriminate.
Qed.

(** When two splittings of one text put the character [c] right after
    [b], and [a] is longer than [b], then [c] lies in [a]. *)
Lemma app_eq_In (c : ascii) (a b r1 r2 : str) :
  a ++ r1 = b ++ c :: r2 -> length b < length a -> In c a.
Proof.
  revert b; induction a as [|x a IH]; intros b H Hlen; simpl in *; [lia|].
  destruct b as [|y b]; simpl in *.
  - injection H as -> _. now left.
  - injection H as _ H. right. apply (IH b H). lia.
Qed.

Lemma app_prefix_split (a x b y : str) :
  a ++ x = b ++ y -> length b <= length a -> exists z, a = b ++ z.
Proof.
  revert b; induction a as [|c a IH]; intros b E Hlen.
  - destruct b; [now exists []|simpl in Hlen; lia].
  - destruct b as [|c0 b]; [now exists (c :: a)|].
    simpl in E, Hlen. injection E as -> E.
    destruct (IH b E ltac:(lia)) as [z ->]. now exists z.
Qed.

End Prefixes.

(** ** The scanning loop *)

Section Scan.

Variable m : matcher.
Hypothesis m_consuming : consuming m.

Lemma consuming_length (s out rest : str) :
  m s = Some (out, rest) -> length rest < length s.
Proof.
  intros E. apply m_consuming in E as (u & Hu & ->).
  rewrite length_app. destruct u; [congruence|simpl; lia].
Qed.

Lemma consuming_nil : m [] = None.
Proof.
  destruct (m []) as [[out rest]|] eqn:E; [|reflexivity].
  apply consuming_length in E. simpl in E. lia.
Qed.

Lemma scan_fuel_irrelevant (f1 f2 : nat) (s : str) :
  length s < f1 -> length s < f2 -> scan_fuel f1 m s = scan_fuel f2 m s.
Proof.
  revert f2 s; induction f1 as [|f1 IH]; intros f2 s H1 H2; [lia|].
  destruct f2 as [|f2]; [lia|]. simpl.
  destruct (m s) as [[out rest]|] eqn:E.
  - apply consuming_length in E. f_equal. apply IH; lia.
  - destruct s as [|c s]; [reflexivity|]. simpl in *. f_equal. apply IH; lia.
Qed.

Lemma scan_nil : scan m [] = [].
Proof. unfold scan. simpl. now rewrite consuming_nil. Qed.

Lemma scan_match (s out rest : str) :
  m s = Some (out, rest) -> scan m s = out ++ scan m rest.
Proof.
  intros E. unfold scan at 1. simpl. rewrite E. f_equal.
  apply consuming_length in E. apply scan_fuel_irrelevant; lia.
Qed.

Lemma scan_skip (c : ascii) (s : str) :
  m (c :: s) = None -> scan m (c :: s) = c :: scan m s.
Proof.
  intros E. unfold scan at 1. simpl scan_fuel. rewrite E. reflexivity.
Qed.

(** Text in which no match starts is copied. *)
Lemma scan_copy (pre s : str) :
  matches_before m (length pre) (pre ++ s) = false ->
  scan m (pre ++ s) = pre ++ scan m s.
Proof.
  induction pre as [|c pre IH]; simpl; intros H; [reflexivity|].
  destruct (m (c :: pre ++ s)) eqn:E; [discriminate|].
  change (c :: pre ++ s) with ((c :: pre) ++ s) in E |- *. simpl.
  rewrite scan_skip by exact E. now rewrite IH.
Qed.

Lemma scan_unchanged (s : str) :
  matches_before m (length s) s = false -> scan m s = s.
Proof.
  intros H. rewrite <- (app_nil_r s) at 1.
  rewrite scan_copy by now rewrite app_nil_r.
  now rewrite scan_nil, app_nil_r.
Qed.


End Scan.

(** ** What the matchers accept *)

Section Matchers.

Lemma lazy_any_then_Some (l s g rest : str) :
  lazy_any_then l s = Some (g, rest) -> s = g ++ l ++ rest.
Proof.
  revert g; induction s as [|c s IH]; intros g; simpl.
  - destruct (strip_prefix l []) eqn:E; [|discriminate].
    intros [= <- <-]. now apply strip_prefix_Some in E.
  - destruct (strip_prefix l (c :: s)) eqn:E.
    + intros [= <- <-]. now apply strip_prefix_Some in E.
    + destruct (lazy_any_then l s) as [[g' r']|]; [|discriminate].
      simpl. intros [= <- <-]. simpl. f_equal. now apply IH.
Qed.

(** The lazy group stops at the first occurrence of the literal. *)
Lemma lazy_any_then_first (l g rest : str) :
  matches_before (strip_prefix l) (length g) (g ++ l ++ rest) = false ->
  lazy_any_then l (g ++ l ++ rest) = Some (g, rest).
Proof.
  induction g as [|c g IH]; simpl; intros H.
  - pose proof (strip_prefix_app l rest) as E.
    destruct (l ++ rest); simpl; now rewrite E.
  - destruct (strip_prefix l (c :: g ++ l ++ rest)); [discriminate|].
    now rewrite IH.
Qed.

Lemma match_block_at_Some (name s g rest : str) :
  match_block_at name s = Some (g, rest) ->
  s = block_open name ++ g ++ block_close ++ rest.
Proof.
  unfold match_block_at.
  destruct (strip_prefix (block_open name) s) as [s1|] eqn:E; [|discriminate].
  intros H. apply lazy_any_then_Some in H. apply strip_prefix_Some in E.
  now subst.
Qed.

Lemma match_block_at_first (name inner rest : str) :
  matches_before (strip_prefix block_close) (length inner)
                 (inner ++ block_close ++ rest) = false ->
  match_block_at name (block_open name ++ inner ++ block_close ++ rest)
  = Some (inner, rest).
Proof.
  intros H. unfold match_block_at. rewrite strip_prefix_app.
  now apply lazy_any_then_first.
Qed.

Lemma replace_at_consuming (old new : str) :
  old <> [] -> consuming (replace_at old new).
Proof.
  intros Hold s out rest. unfold replace_at.
  destruct (strip_prefix old s) as [r|] eqn:E; [|discriminate].
  simpl. intros [= <- <-]. exists old. split; [exact Hold|].
  now apply strip_prefix_Some.
Qed.

Lemma sub_block_at_consuming (name : str) (t : list titem) :
  consuming (sub_block_at name t).
Proof.
  intros s out rest. unfold sub_block_at.
  destruct (match_block_at name s) as [[g r]|] eqn:E; [|discriminate].
  intros [= <- <-]. apply match_block_at_Some in E.
  exists (block_open name ++ g ++ block_close). split.
  - discriminate.
  - now rewrite E, <- !app_assoc.
Qed.

Lemma lazy_nonquote_then_Some (l s g rest : str) :
  lazy_nonquote_then l s = Some (g, rest) ->
  s = g ++ l ++ rest /\ quote_free g = true.
Proof.
  revert g; induction s as [|c s IH]; intros g; simpl.
  - destruct (strip_prefix l []) eqn:E; [|discriminate].
    intros [= <- <-]. now apply strip_prefix_Some in E.
  - destruct (strip_prefix l (c :: s)) eqn:E.
    + intros [= <- <-]. now apply strip_prefix_Some in E.
    + destruct (is_dquote c) eqn:Hc; [discriminate|].
      destruct (lazy_nonquote_then l s) as [[g' r']|]; [|discriminate].
      simpl. intros [= <- <-]. destruct (IH g' eq_refl) as [-> Hq].
      split; [reflexivity|]. unfold quote_free, lacks in *. simpl.
      unfold is_dquote in Hc. now rewrite Hc, Hq.
Qed.

Lemma span_nonquote_spec (s g rest : str) :
  span_nonquote s = (g, rest) -> s = g ++ rest /\ quote_free g = true.
Proof.
  revert g; induction s as [|c s IH]; intros g; simpl.
  - now intros [= <- <-].
  - destruct (is_dquote c) eqn:Hc.
    + now intros [= <- <-].
    + destruct (span_nonquote s) as [g' r']. intros [= <- <-].
      destruct (IH g' eq_refl) as [-> Hq]. split; [reflexivity|].
      unfold quote_free, lacks in *. simpl.
      unfold is_dquote in Hc. now rewrite Hc, Hq.
Qed.

(** A match of the class pattern is one conditional class attribute. *)
Lemma match_class_at_Some (s g1 g2 g3 rest : str) :
  match_class_at s = Some (g1, g2, g3, rest) ->
  s = class_fragment g1 g2 g3 ++ rest
  /\ quote_free g1 = true /\ quote_free g2 = true /\ g2 <> []
  /\ quote_free g3 = true.
Proof.
  unfold match_class_at.
  destruct (strip_prefix class_open s) as [s1|] eqn:E1; [|discriminate].
  destruct (lazy_nonquote_then if_open s1) as [[h1 s2]|] eqn:E2; [|discriminate].
  destruct (span_nonquote s2) as [h2 s3] eqn:E3.
  destruct h2 as [|x h2]; [discriminate|].
  destruct (strip_prefix if_close s3) as [s4|] eqn:E4; [|discriminate].
  destruct (lazy_nonquote_then [dquote] s4) as [[h3 r]|] eqn:E5; [|discriminate].
  intros [= <- <- <- <-].
  apply strip_prefix_Some in E1, E4.
  apply lazy_nonquote_then_Some in E2 as [E2 Q1], E5 as [E5 Q3].
  apply span_nonquote_spec in E3 as [E3 Q2].
  subst. unfold class_fragment. repeat split; try assumption; try discriminate.
  now rewrite <- !app_assoc.
Qed.

Lemma class_repl_consuming (active_page : str) :
  consuming (class_repl active_page).
Proof.
  intros s out rest. unfold class_repl.
  destruct (match_class_at s) as [[[[g1 g2] g3] r]|] eqn:E; [|discriminate].
  intros [= <- <-]. apply match_class_at_Some in E as (-> & _).
  exists (class_fragment g1 g2 g3). split; [discriminate|reflexivity].
Qed.

End Matchers.

(** ** First matches *)

Section FirstMatch.

Lemma matches_before_same {A B} (m1 : str -> option A) (m2 : str -> option B)
      (n : nat) (s : str) :
  (forall t, m1 t = None <-> m2 t = None) ->
  matches_before m1 n s = matches_before m2 n s.
Proof.
  intros H. revert s; induction n as [|n IH]; intros s; simpl; [reflexivity|].
  destruct (m1 s) eqn:E1, (m2 s) eqn:E2; try reflexivity.
  - apply H in E2. congruence.
  - apply H in E1. congruence.
  - destruct s; [reflexivity|apply IH].
Qed.

Lemma search_skip {A} (m : str -> option A) (pre s : str) :
  matches_before m (length pre) (pre ++ s) = false ->
  search m (pre ++ s) = search m s.
Proof.
  induction pre as [|c pre IH]; simpl; intros H; [reflexivity|].
  destruct (m (c :: pre ++ s)); [discriminate|]. now apply IH.
Qed.

Lemma search_here {A} (m : str -> option A) (s : str) (r : A) :
  m s = Some r -> search m s = Some r.
Proof. intros E. destruct s; simpl; now rewrite E. Qed.

Lemma search_none {A} (m : str -> option A) (s : str) :
  matches_before m (S (length s)) s = false -> search m s = None.
Proof.
  induction s as [|c s IH]; simpl.
  - now destruct (m []).
  - destruct (m (c :: s)); [discriminate|]. exact IH.
Qed.

Lemma matches_before_none {A} (m : str -> option A) (P : str -> Prop) :
  (forall c s, P (c :: s) -> P s) ->
  (forall s, P s -> m s = None) ->
  forall n s, P s -> matches_before m n s = false.
Proof.
  intros Htl Hm. induction n as [|n IH]; intros s Hs; simpl; [reflexivity|].
  rewrite (Hm s Hs). destruct s as [|c s]; [reflexivity|].
  apply IH. now apply Htl with c.
Qed.

(** The extraction finds the first block, whatever follows it. *)
Lemma search_block_first (name pre inner post : str) :
  first_block name pre inner post = true ->
  search_block name (with_block name pre inner post) = Some inner.
Proof.
  unfold first_block, with_block, search_block.
  intros H. apply andb_true_iff in H as [H1 H2].
  apply negb_true_iff in H1, H2.
  rewrite search_skip by exact H1.
  now rewrite (search_here _ _ _ (match_block_at_first name inner post H2)).
Qed.

Lemma match_block_at_needs_close (name s : str) :
  contains block_close s = false -> match_block_at name s = None.
Proof.
  intros H. destruct (match_block_at name s) as [[g r]|] eqn:E; [|reflexivity].
  apply match_block_at_Some in E. subst s.
  rewrite app_assoc, contains_occurrence in H. discriminate.
Qed.

Lemma match_block_at_needs_open (name s : str) :
  contains (block_open name) s = false -> match_block_at name s = None.
Proof.
  intros H. destruct (match_block_at name s) as [[g r]|] eqn:E; [|reflexivity].
  apply match_block_at_Some in E. subst s.
  pose proof (contains_occurrence (block_open name) []) as Hc.
  setoid_rewrite app_nil_l in Hc. rewrite Hc in H. discriminate.
Qed.

Lemma search_block_needs_close (name s : str) :
  contains block_close s = false -> search_block name s = None.
Proof.
  intros H. unfold search_block. rewrite search_none; [reflexivity|].
  apply matches_before_none with (P := fun t => contains block_close t = false).
  - intros c t. apply contains_false_tail.
  - intros t. apply match_block_at_needs_close.
  - exact H.
Qed.

Lemma search_block_needs_open (name s : str) :
  contains (block_open name) s = false -> search_block name s = None.
Proof.
  intros H. unfold search_block. rewrite search_none; [reflexivity|].
  apply matches_before_none
    with (P := fun t => contains (block_open name) t = false).
  - intros c t. apply contains_false_tail.
  - intros t. apply match_block_at_needs_open.
  - exact H.
Qed.

Lemma matches_before_false_intro {A} (m : str -> option A) (pre s : str) :
  (forall u1 u2, pre = u1 ++ u2 -> u2 <> [] -> m (u2 ++ s) = None) ->
  matches_before m (length pre) (pre ++ s) = false.
Proof.
  induction pre as [|c pre IH]; intros H; simpl; [reflexivity|].
  pose proof (H [] (c :: pre) eq_refl ltac:(discriminate)) as E.
  simpl in E. rewrite E.
  apply IH. intros u1 u2 -> Hu2. now apply (H (c :: u1) u2).
Qed.

End FirstMatch.

(** ** Replacement templates *)

Section Templates.

Lemma parse_template_fuel_literal (repl : str) (fuel : nat) :
  backslash_free repl = true -> length repl <= fuel ->
  parse_template_fuel fuel repl = Ok (map TLit repl).
Proof.
  revert fuel; induction repl as [|c repl IH]; intros fuel Hb Hf.
  - now destruct fuel.
  - destruct fuel as [|fuel]; [simpl in Hf; lia|]. simpl.
    unfold backslash_free, lacks in Hb. simpl in Hb.
    apply andb_true_iff in Hb as [Hc Hb]. apply negb_true_iff in Hc.
    rewrite Hc, IH; [reflexivity|exact Hb|simpl in Hf; lia].
Qed.

(** A replacement without backslash stands for itself. *)
Lemma parse_template_literal (repl : str) :
  backslash_free repl = true -> parse_template repl = Ok (map TLit repl).
Proof. intros H. now apply parse_template_fuel_literal. Qed.

Lemma expand_template_literal (repl whole : str) :
  expand_template (map TLit repl) whole = repl.
Proof.
  unfold expand_template. induction repl as [|c repl IH]; simpl; congruence.
Qed.

Lemma sub_block_at_none (name : str) (t : list titem) (s : str) :
  match_block_at name s = None <-> sub_block_at name t s = None.
Proof.
  unfold sub_block_at. destruct (match_block_at name s) as [[g r]|].
  - split; discriminate.
  - split; reflexivity.
Qed.

(** [re.sub] on a document whose first block is known: the text before
    the block is copied, the block is replaced, and what follows the block
    is treated in the same way. *)
Lemma sub_block_first (name repl pre inner post : str) :
  backslash_free repl = true ->
  first_block name pre inner post = true ->
  sub_block name repl (with_block name pre inner post)
  = r <- sub_block name repl post ;; Ok (pre ++ repl ++ r).
Proof.
  intros Hb H. unfold first_block, with_block in *.
  apply andb_true_iff in H as [H1 H2]. apply negb_true_iff in H1, H2.
  unfold sub_block. rewrite (parse_template_literal _ Hb). cbn [bind].
  set (m := sub_block_at name (map TLit repl)).
  assert (consuming m) as Hm by apply sub_block_at_consuming.
  rewrite (scan_copy m).
  - f_equal. f_equal. rewrite (scan_match m Hm _ repl post); [reflexivity|].
    unfold m, sub_block_at. rewrite (match_block_at_first name inner post H2).
    now rewrite expand_template_literal.
  - rewrite <- H1. apply matches_before_same.
    intros t. symmetry. apply sub_block_at_none.
Qed.

(** A document without the open marker is left as it is. *)
Lemma sub_block_no_block (name repl s : str) :
  backslash_free repl = true ->
  contains (block_open name) s = false ->
  sub_block name repl s = Ok s.
Proof.
  intros Hb Hs. unfold sub_block. rewrite (parse_template_literal _ Hb).
  cbn [bind]. f_equal. apply scan_unchanged; [apply sub_block_at_consuming|].
  apply matches_before_none
    with (P := fun t => contains (block_open name) t = false).
  - intros c t. apply contains_false_tail.
  - intros t Ht. apply sub_block_at_none. now apply match_block_at_needs_open.
  - exact Hs.
Qed.

(** With two blocks in the document, both are replaced. *)
Lemma sub_block_two_blocks (name repl pre1 inner1 pre2 inner2 post : str) :
  backslash_free repl = true ->
  first_block name pre1 inner1 (with_block name pre2 inner2 post) = true ->
  first_block name pre2 inner2 post = true ->
  sub_block name repl
            (with_block name pre1 inner1 (with_block name pre2 inner2 post))
  = r <- sub_block name repl post ;;
    Ok (pre1 ++ repl ++ pre2 ++ repl ++ r).
Proof.
  intros Hb H1 H2. rewrite (sub_block_first _ _ _ _ _ Hb H1).
  rewrite (sub_block_first _ _ _ _ _ Hb H2).
  now destruct (sub_block name repl post).
Qed.

Lemma sub_block_literal_ok (name repl s : str) :
  backslash_free repl = true -> exists r, sub_block name repl s = Ok r.
Proof.
  intros Hb. unfold sub_block. rewrite (parse_template_literal _ Hb).
  cbn [bind]. eauto.
Qed.

End Templates.

(** ** The conditional class pattern *)

Section ClassPattern.

Lemma quote_free_cons (c : ascii) (s : str) :
  quote_free (c :: s) = true -> is_dquote c = false /\ quote_free s = true.
Proof.
  unfold quote_free, lacks, is_dquote. simpl. intros H.
  apply andb_true_iff in H as [Hc Hs]. now apply negb_true_iff in Hc.
Qed.

(** A literal that ends with its only double quote is found right after
    the text [g] when [g] has no double quote. *)
Lemma lazy_nonquote_then_first (l g r : str) :
  quote_free l = true -> quote_free g = true ->
  lazy_nonquote_then (l ++ [dquote]) (g ++ (l ++ [dquote]) ++ r) = Some (g, r).
Proof.
  intros Hl. induction g as [|c g IH]; intros Hg.
  - pose proof (strip_prefix_app (l ++ [dquote]) r) as E. simpl app at 2.
    destruct ((l ++ [dquote]) ++ r); simpl; now rewrite E.
  - apply quote_free_cons in Hg as [Hc Hg]. simpl.
    destruct (strip_prefix (l ++ [dquote]) (c :: g ++ (l ++ [dquote]) ++ r))
      as [r'|] eqn:E.
    + exfalso. apply strip_prefix_Some in E.
      assert (In dquote ((c :: g) ++ l)) as Hin.
      { apply app_eq_In with (b := l) (r1 := dquote :: r) (r2 := r').
        - rewrite <- app_assoc. rewrite <- !app_assoc in E. exact E.
        - rewrite length_app. simpl. lia. }
      apply in_app_or in Hin as [Hin|Hin].
      * revert Hin. apply lacks_In. unfold lacks. simpl.
        unfold is_dquote in Hc. now rewrite Hc.
      * revert Hin. now apply lacks_In.
    + now rewrite Hc, IH.
Qed.

Lemma span_nonquote_run (g r : str) :
  quote_free g = true -> span_nonquote (g ++ dquote :: r) = (g, dquote :: r).
Proof.
  induction g as [|c g IH]; intros Hg; [reflexivity|].
  apply quote_free_cons in Hg as [Hc Hg]. simpl. now rewrite Hc, IH.
Qed.

(** The pattern matches a conditional class attribute, with its three
    parts as groups. *)
Lemma match_class_at_fragment (g1 target g3 rest : str) :
  quote_free g1 = true -> quote_free target = true -> target <> [] ->
  quote_free g3 = true ->
  match_class_at (class_fragment g1 target g3 ++ rest)
  = Some (g1, target, g3, rest).
Proof.
  intros H1 H2 Hne H3. unfold match_class_at, class_fragment.
  rewrite <- !app_assoc, strip_prefix_app.
  pose proof (lazy_nonquote_then_first (lit "{% if active_page == ") g1
                (target ++ if_close ++ g3 ++ [dquote] ++ rest)
                eq_refl H1) as E1.
  fold if_open in E1. rewrite E1.
  change (if_close ++ g3 ++ [dquote] ++ rest)
    with (dquote :: lit " %}active{% endif %}" ++ g3 ++ [dquote] ++ rest).
  rewrite (span_nonquote_run _ _ H2).
  destruct target as [|x target]; [congruence|].
  change (dquote :: lit " %}active{% endif %}" ++ g3 ++ [dquote] ++ rest)
    with (if_close ++ g3 ++ [dquote] ++ rest).
  rewrite strip_prefix_app.
  pose proof (lazy_nonquote_then_first [] g3 rest eq_refl H3) as E3.
  simpl app in E3. simpl app. now rewrite E3.
Qed.

Lemma class_repl_none (active_page s : str) :
  match_class_at s = None <-> class_repl active_page s = None.
Proof.
  unfold class_repl. destruct (match_class_at s) as [[[[g1 g2] g3] r]|].
  - split; discriminate.
  - split; reflexivity.
Qed.

(** A match takes more text than the resolver gives back. *)
Lemma class_repl_shrinks (active_page s out rest : str) :
  class_repl active_page s = Some (out, rest) ->
  length out + length rest < length s.
Proof.
  unfold class_repl.
  destruct (match_class_at s) as [[[[g1 g2] g3] r]|] eqn:E; [|discriminate].
  intros H. apply match_class_at_Some in E as (-> & _ & _ & Hne & _).
  assert (out = class_open ++ g1
                  ++ (if str_eqb active_page g2 then lit "active" else [])
                  ++ g3 ++ [dquote]) as -> by congruence.
  assert (rest = r) as -> by congruence. clear H.
  unfold class_fragment. rewrite !length_app.
  assert (length g2 <> 0) by (destruct g2; simpl; congruence).
  change (length if_open) with 22. change (length if_close) with 21.
  destruct (str_eqb active_page g2);
    [change (length (lit "active")) with 6|change (@length ascii []) with 0];
    lia.
Qed.

Lemma str_eqb_eq (a b : str) : str_eqb a b = true <-> a = b.
Proof.
  unfold str_eqb. destruct (list_eq_dec ascii_dec a b); split;
    congruence.
Qed.

End ClassPattern.

(** A scan whose matches give back less text than they take shortens every
    text in which it finds a match. *)
Section Shrinking.

Variable m : matcher.
Hypothesis m_consuming : consuming m.
Hypothesis m_shrinks :
  forall s out rest, m s = Some (out, rest) ->
                     length out + length rest < length s.

Lemma scan_length_le (s : str) : length (scan m s) <= length s.
Proof.
  remember (length s) as n eqn:Hn. revert s Hn.
  induction n as [n IH] using lt_wf_ind. intros s Hn.
  destruct (m s) as [[out rest]|] eqn:E.
  - rewrite (scan_match m m_consuming _ _ _ E), length_app.
    pose proof (m_shrinks _ _ _ E) as Hlt.
    pose proof (IH (length rest) ltac:(lia) rest eq_refl). lia.
  - destruct s as [|c s].
    + rewrite (scan_nil m m_consuming). simpl in *. lia.
    + rewrite (scan_skip m _ _ E). simpl in *.
      pose proof (IH (length s) ltac:(lia) s eq_refl). lia.
Qed.

Lemma scan_length_lt (n : nat) (s : str) :
  matches_before m n s = true -> length (scan m s) < length s.
Proof.
  revert s; induction n as [|n IH]; intros s; simpl; [discriminate|].
  destruct (m s) as [[out rest]|] eqn:E.
  - intros _. rewrite (scan_match m m_consuming _ _ _ E), length_app.
    pose proof (m_shrinks _ _ _ E). pose proof (scan_length_le rest). lia.
  - destruct s as [|c s]; [discriminate|]. intros H.
    rewrite (scan_skip m _ _ E). simpl. apply IH in H. lia.
Qed.

End Shrinking.

(** ** The fuel of the template parser *)

Section TemplateFuel.

Lemma getuntil_rest (terminator : ascii) (s name rest : str) :
  getuntil terminator s = Some (name, rest) -> length rest < length s.
Proof.
  revert name; induction s as [|c s IH]; intros name; simpl; [discriminate|].
  destruct (Ascii.eqb c terminator).
  - intros [= <- <-]. lia.
  - destruct (getuntil terminator s) as [[n r]|]; [|discriminate].
    simpl. intros [= <- <-]. specialize (IH n eq_refl). lia.
Qed.

(** An escape leaves no more text than follows it. *)
Lemma parse_escape_rest (c : ascii) (s : str) (items : list titem)
      (rest : str) :
  parse_escape c s = Ok (items, rest) -> length rest <= length s.
Proof.
  unfold parse_escape.
  destruct (Ascii.eqb c "g").
  - destruct s as [|lt s1]; [discriminate|].
    destruct (Ascii.eqb lt "<"); [|discriminate].
    destruct (getuntil ">" s1) as [[name r]|] eqn:E; [|discriminate].
    apply getuntil_rest in E.
    destruct name; [discriminate|].
    destruct (forallb is_digit _); [|discriminate].
    destruct (_ <=? _); [|discriminate].
    intros [= <- <-]. simpl. lia.
  - destruct (Ascii.eqb c "0").
    + destruct s as [|d1 s1]; [intros [= <- <-]; lia|].
      destruct (is_octdigit d1); [|intros [= <- <-]; lia].
      destruct s1 as [|d2 s2]; [intros [= <- <-]; simpl; lia|].
      destruct (is_octdigit d2); intros [= <- <-]; simpl; lia.
    + destruct (is_digit c).
      * destruct s as [|d1 [|d2 s2]]; try discriminate.
        destruct (_ && _); [|discriminate].
        destruct (_ <? _); [discriminate|].
        intros [= <- <-]. simpl. lia.
      * destruct (escape_char c); [intros [= <- <-]; lia|].
        destruct (is_ascii_letter c); [discriminate|].
        intros [= <- <-]. lia.
Qed.

(** Fuel beyond the length of the template changes nothing: the parser
    never stops for lack of fuel. *)
Lemma parse_template_fuel_enough (f1 f2 : nat) (s : str) :
  length s <= f1 -> length s <= f2 ->
  parse_template_fuel f1 s = parse_template_fuel f2 s.
Proof.
  revert f2 s; induction f1 as [|f1 IH]; intros f2 s H1 H2.
  - destruct s; [|simpl in H1; lia]. now destruct f2.
  - destruct s as [|c s]; [now destruct f2|].
    destruct f2 as [|f2]; [simpl in H2; lia|]. simpl in *.
    destruct (Ascii.eqb c backslash).
    + destruct s as [|e s]; [reflexivity|].
      destruct (parse_escape e s) as [[items rest]|] eqn:E; [|reflexivity].
      apply parse_escape_rest in E. cbn [bind snd fst]. simpl in *.
      now rewrite (IH f2 rest) by lia.
    + now rewrite (IH f2 s) by lia.
Qed.



Lemma parse_template_fuel_step (fuel : nat) (c : ascii) (s : str) :
  parse_template_fuel (S fuel) (c :: s)
  = if Ascii.eqb c backslash then
      match s with
      | [] => Raise TemplateError
      | e :: s' =>
          ir <- parse_escape e s' ;;
          tl <- parse_template_fuel fuel (snd ir) ;;
          Ok (fst ir ++ tl)
      end
    else
      tl <- parse_template_fuel fuel s ;;
      Ok (TLit c :: tl).
Proof. reflexivity. Qed.

(** The parser, one step at a time. *)
Lemma parse_template_plain (c : ascii) (s : str) :
  Ascii.eqb c backslash = false ->
  parse_template (c :: s) = tl <- parse_template s ;; Ok (TLit c :: tl).
Proof.
  intros H. unfold parse_template. cbn [length].
  now rewrite parse_template_fuel_step, H.
Qed.

Lemma parse_template_escape (e : ascii) (s : str) :
  parse_template (backslash :: e :: s)
  = ir <- parse_escape e s ;;
    tl <- parse_template (snd ir) ;;
    Ok (fst ir ++ tl).
Proof.
  unfold parse_template. cbn [length].
  rewrite parse_template_fuel_step, Ascii.eqb_refl.
  destruct (parse_escape e s) as [[items rest]|] eqn:E; [|reflexivity].
  apply parse_escape_rest in E. cbn [bind snd fst].
  now rewrite (parse_template_fuel_enough (S (length s)) (length rest))
    by lia.
Qed.

Lemma parse_template_trailing_backslash :
  parse_template [backslash] = Raise TemplateError.
Proof. reflexivity. Qed.

End TemplateFuel.

(** A conditional class attribute that the scan reaches (no match of the
    pattern starts in the text [pre] before it) is rewritten to the class
    attribute with the literal class text around the emitted token, and the
    text after the attribute is resolved in the same way. *)
Lemma resolve_active_fragment (ctx : context) (pre g1 X g3 rest : str) :
  quote_free g1 = true ->
  quote_free X = true ->
  X <> [] ->
  quote_free g3 = true ->
  matches_before match_class_at (length pre)
                 (pre ++ class_fragment g1 X g3 ++ rest) = false ->
  resolve_active ctx (pre ++ class_fragment g1 X g3 ++ rest)
  = pre ++ (class_open ++ g1 ++ emitted (get ctx (lit "active_page") []) X
              ++ g3 ++ [dquote])
        ++ resolve_active ctx rest.
Proof.
  intros H1 H2 Hne H3 Hpre. unfold resolve_active. rewrite scan_copy.
  - f_equal. apply scan_match; [apply class_repl_consuming|].
    unfold class_repl. now rewrite match_class_at_fragment.
  - rewrite <- Hpre. apply matches_before_same.
    intros t. symmetry. apply class_repl_none.
Qed.

(** ** Documents with several conditional class attributes *)

Section Occurrences.

Lemma quote_free_In (s : str) : quote_free s = true -> ~ In dquote s.
Proof. apply lacks_In. Qed.

Lemma quote_free_app (a b : str) :
  quote_free (a ++ b) = quote_free a && quote_free b.
Proof. apply lacks_app. Qed.

(** No match of the class pattern starts in a text without directive
    opening, whether the text is followed by a class attribute or by
    nothing. *)
Lemma class_match_not_from_gap (pre z : str) :
  contains if_open pre = false ->
  matches_before match_class_at (length pre) (pre ++ class_open ++ z) = false.
Proof.
  intros Hpre. apply matches_before_false_intro. intros u1 u2 -> Hu2.
  destruct (match_class_at (u2 ++ class_open ++ z))
    as [[[[g1 g2] g3] r]|] eqn:E; [|reflexivity].
  exfalso. apply match_class_at_Some in E as (E & Q1 & _).
  set (L := lit "{% if active_page == ").
  set (R := g2 ++ if_close ++ g3 ++ [dquote] ++ r).
  assert (quote_free (g1 ++ L) = true) as QL
      by (rewrite quote_free_app, Q1; reflexivity).
  assert (u2 ++ lit "class=" ++ dquote :: z
          = (class_open ++ g1 ++ L) ++ dquote :: R) as E'.
  { change (u2 ++ class_open ++ z = (class_open ++ g1 ++ L) ++ dquote :: R).
    rewrite E. unfold class_fragment, if_open, R. fold L.
    now rewrite <- !app_assoc. }
  destruct (le_lt_dec (length ((class_open ++ g1 ++ L) ++ [dquote]))
                      (length u2)) as [Hle|Hlt].
  - (* the opening of the directive lies in the text *)
    assert (u2 ++ (lit "class=" ++ dquote :: z)
            = ((class_open ++ g1 ++ L) ++ [dquote]) ++ R) as E2
        by (rewrite E'; now rewrite <- !app_assoc).
    destruct (app_prefix_split _ _ _ _ E2 Hle) as [w Hw].
    assert (contains if_open (u1 ++ u2) = true) as Hc.
    { rewrite Hw. apply contains_iff.
      exists (u1 ++ class_open ++ g1), w. unfold if_open. fold L.
      now rewrite <- !app_assoc. }
    congruence.
  - (* the double quote of the opening lies after the text *)
    rewrite length_app in Hlt. change (length [dquote]) with 1 in Hlt.
    symmetry in E'.
    destruct (app_prefix_split _ _ _ _ E' ltac:(lia)) as [A' HA].
    rewrite HA, <- app_assoc in E'. apply app_inv_head in E'.
    destruct (lt_eq_lt_dec (length A') 6) as [[Hlt6|Heq6]|Hgt6].
    + (* it would be inside [class=] *)
      assert (In dquote (lit "class=")) as Hin.
      { apply app_eq_In with (b := A') (r1 := dquote :: z) (r2 := R).
        - now symmetry.
        - exact Hlt6. }
      revert Hin. now apply quote_free_In.
    + (* [class=] would end the opening of the directive *)
      assert (A' = lit "class=") as ->.
      { symmetry in E'.
        destruct (app_prefix_split _ _ _ _ E' ltac:(rewrite Heq6; reflexivity))
          as [w Hw].
        assert (length w = 0).
        { apply (f_equal (@length ascii)) in Hw. rewrite length_app in Hw.
          change (length (lit "class=")) with 6 in Hw. lia. }
        destruct w; [|discriminate]. now rewrite app_nil_r in Hw. }
      change (lit "class=") with (lit "class" ++ ["="%char]) in HA.
      change L with (lit "{% if active_page ==" ++ [" "%char]) in HA.
      rewrite !app_assoc in HA. apply app_inj_tail in HA as [_ HA].
      discriminate.
    + (* it would be in the literal class text or in the opening itself *)
      symmetry in E'.
      assert (length (lit "class=" ++ [dquote]) <= length A') as Hlen
          by (simpl; lia).
      assert (lit "class=" ++ dquote :: z
              = (lit "class=" ++ [dquote]) ++ z) as E3
          by now rewrite <- app_assoc.
      rewrite E3 in E'. symmetry in E'.
      destruct (app_prefix_split _ _ _ _ E' Hlen) as [A'' HA''].
      fold class_open in HA''. subst A'.
      assert (class_open ++ (g1 ++ L)
              = (u2 ++ lit "class=") ++ dquote :: A'') as E4.
      { rewrite HA. unfold class_open. now rewrite <- !app_assoc. }
      assert (length class_open <= length (u2 ++ lit "class=")) as Hlen2.
      { rewrite length_app. destruct u2; [congruence|]. simpl. lia. }
      symmetry in E4.
      destruct (app_prefix_split _ _ _ _ E4 Hlen2) as [W HW].
      rewrite HW, <- app_assoc in E4. apply app_inv_head in E4.
      apply (quote_free_In _ QL). rewrite <- E4.
      apply in_or_app. right. now left.
Qed.

Lemma class_match_needs_directive (s : str) :
  contains if_open s = false ->
  matches_before match_class_at (length s) s = false.
Proof.
  intros H.
  apply matches_before_none with (P := fun t => contains if_open t = false).
  - intros c t. apply contains_false_tail.
  - intros t Ht.
    destruct (match_class_at t) as [[[[g1 g2] g3] r]|] eqn:E; [|reflexivity].
    apply match_class_at_Some in E as (-> & _). unfold class_fragment in Ht.
    rewrite <- !app_assoc in Ht.
    rewrite (app_assoc class_open g1), contains_occurrence in Ht.
    discriminate.
  - exact H.
Qed.

Lemma resolve_active_no_directive (ctx : context) (s : str) :
  contains if_open s = false -> resolve_active ctx s = s.
Proof.
  intros H. unfold resolve_active. apply scan_unchanged.
  - apply class_repl_consuming.
  - rewrite <- (class_match_needs_directive s H).
    apply matches_before_same. intros t. symmetry. apply class_repl_none.
Qed.

End Occurrences.

(** ** The composer *)

Section Composer.


Lemma substitute_nil (s : str) : substitute [] s = s.
Proof. reflexivity. Qed.

Lemma render_template_standalone (fs : filesystem) (content : str)
      (ctx : context) :
  state_of content = Standalone ->
  render_template fs content ctx
  = Ok (resolve_active ctx (substitute ctx content)).
Proof. intros H. unfold render_template, compose. now rewrite H. Qed.



End Composer.

(** ** Variable substitution *)

Section Substitution.

Lemma replace_placeholder (k v s : str) :
  replace (placeholder k) v s = scan (replace_at (placeholder k) v) s.
Proof. reflexivity. Qed.

Lemma placeholder_not_nil (k : str) : placeholder k <> [].
Proof. discriminate. Qed.

(** One replacement does not look at what it inserts. *)
Lemma replace_placeholder_here (k v d : str) :
  replace (placeholder k) v (placeholder k ++ d)
  = v ++ replace (placeholder k) v d.
Proof.
  rewrite !replace_placeholder. apply scan_match.
  - apply replace_at_consuming, placeholder_not_nil.
  - unfold replace_at. now rewrite strip_prefix_app.
Qed.

Lemma replace_placeholder_nil (k v : str) : replace (placeholder k) v [] = [].
Proof. reflexivity. Qed.

Lemma substitute_cons (k v : str) (ctx : context) (d : str) :
  substitute ((k, v) :: ctx) d = substitute ctx (replace (placeholder k) v d).
Proof. reflexivity. Qed.

Lemma substitute_snoc (k v : str) (ctx : context) (d : str) :
  substitute (ctx ++ [(k, v)]) d
  = replace (placeholder k) v (substitute ctx d).
Proof. unfold substitute. now rewrite fold_left_app. Qed.

End Substitution.

(** ** Placeholders of different keys do not overlap *)

Section Placeholders.

Local Open Scope char_scope.

Lemma placeholder_unfold (k : str) :
  placeholder k = "{" :: "{" :: " " :: k ++ [" "; "}"; "}"].
Proof. reflexivity. Qed.

Lemma brace_free_cons (c : ascii) (s : str) :
  brace_free (c :: s) = true ->
  c <> "{" /\ c <> "}" /\ brace_free s = true.
Proof.
  unfold brace_free, lacks. simpl. intros H.
  apply andb_true_iff in H as [H1 H2].
  apply andb_true_iff in H1 as [Ha H1], H2 as [Hb H2].
  apply negb_true_iff in Ha, Hb. rewrite H1, H2.
  repeat split; intros ->; discriminate.
Qed.

(** The text between the braces of a placeholder has no open brace. *)
Lemma placeholder_body_lacks (k : str) :
  brace_free k = true -> ~ In "{" (" " :: k ++ [" "; "}"; "}"]).
Proof.
  intros H. apply lacks_In. unfold brace_free in H.
  apply andb_true_iff in H as [H _]. unfold lacks in *. simpl.
  now rewrite forallb_app, H.
Qed.

(** Two placeholders that start at the same place are for the same
    key. *)
Lemma placeholder_same_start (k' k r' r : str) :
  brace_free k' = true -> brace_free k = true ->
  k' ++ " " :: "}" :: "}" :: r' = k ++ " " :: "}" :: "}" :: r -> k' = k.
Proof.
  revert k; induction k' as [|c k' IH]; intros k Hk' Hk E.
  - destruct k as [|c0 k]; [reflexivity|]. exfalso.
    simpl in E. injection E as <- E.
    apply brace_free_cons in Hk as (_ & _ & Hk).
    destruct k as [|c1 k]; simpl in E; [discriminate|].
    injection E as <- _. apply brace_free_cons in Hk as (_ & Hc & _).
    now apply Hc.
  - destruct k as [|c0 k].
    + exfalso. simpl in E. injection E as -> E.
      apply brace_free_cons in Hk' as (_ & _ & Hk').
      destruct k' as [|c1 k']; simpl in E; [discriminate|].
      injection E as -> _. apply brace_free_cons in Hk' as (_ & Hc & _).
      now apply Hc.
    + simpl in E. injection E as -> E.
      apply brace_free_cons in Hk' as (_ & _ & Hk').
      apply brace_free_cons in Hk as (_ & _ & Hk).
      f_equal. now apply IH.
Qed.

Variables k k' : str.
Hypothesis k_brace_free : brace_free k = true.
Hypothesis k'_brace_free : brace_free k' = true.
Hypothesis k_k' : k' <> k.

(** No placeholder of [k'] starts inside the placeholder of [k]. *)
Lemma placeholder_not_inside (u1 u2 post r : str) :
  placeholder k = u1 ++ u2 -> u2 <> [] ->
  u2 ++ post <> placeholder k' ++ r.
Proof.
  rewrite !placeholder_unfold. intros E Hu2 F.
  destruct u1 as [|c1 u1]; simpl in E.
  - subst u2. simpl in F. injection F as F. rewrite <- !app_assoc in F.
    simpl in F. symmetry in F.
    now apply placeholder_same_start in F.
  - injection E as <- E. destruct u1 as [|c2 u1]; simpl in E.
    + subst u2. simpl in F. discriminate.
    + injection E as <- E.
      apply (placeholder_body_lacks k k_brace_free).
      rewrite E. apply in_or_app. right.
      destruct u2 as [|x u2]; [congruence|].
      simpl in F. injection F as -> _. now left.
Qed.


End Placeholders.

Section KeepsPlaceholder.

Variables k k' : str.
Hypothesis k_brace_free : brace_free k = true.
Hypothesis k'_brace_free : brace_free k' = true.
Hypothesis k_k' : k' <> k.


End KeepsPlaceholder.


(** ** Well-formed documents *)

Section WellFormed.

(** No placeholder starts inside plain text. *)
Lemma plain_no_start (t u1 u2 rest k r : str) :
  plain t = true -> t = u1 ++ u2 -> u2 <> [] ->
  u2 ++ rest <> placeholder k ++ r.
Proof.
  intros Hp -> Hu2 F. rewrite placeholder_unfold in F.
  unfold plain in Hp. apply andb_true_iff in Hp as [H1 H2].
  apply negb_true_iff in H1.
  destruct u2 as [|c u2]; [congruence|]. simpl in F. injection F as -> F.
  destruct u2 as [|c2 u2].
  - rewrite rev_app_distr in H2. simpl in H2. discriminate.
  - simpl in F. injection F as -> _.
    pose proof (contains_occurrence (lit "{{") u1 u2) as Hc.
    change (lit "{{" ++ u2) with ("{"%char :: "{"%char :: u2) in Hc.
    congruence.
Qed.

Lemma replace_over_text (k v t s : str) :
  plain t = true ->
  replace (placeholder k) v (t ++ s) = t ++ replace (placeholder k) v s.
Proof.
  intros Hp. rewrite !replace_placeholder.
  apply scan_copy, matches_before_false_intro. intros u1 u2 E Hu2.
  unfold replace_at.
  destruct (strip_prefix (placeholder k) (u2 ++ s)) as [r|] eqn:F;
    [|reflexivity].
  apply strip_prefix_Some in F. exfalso.
  exact (plain_no_start t u1 u2 s k r Hp E Hu2 F).
Qed.

Lemma replace_over_hole (k k' v s : str) :
  brace_free k = true -> brace_free k' = true -> k <> k' ->
  replace (placeholder k) v (placeholder k' ++ s)
  = placeholder k' ++ replace (placeholder k) v s.
Proof.
  intros Hk Hk' Hne. rewrite !replace_placeholder.
  apply scan_copy, matches_before_false_intro. intros u1 u2 E Hu2.
  unfold replace_at.
  destruct (strip_prefix (placeholder k) (u2 ++ s)) as [r|] eqn:F;
    [|reflexivity].
  apply strip_prefix_Some in F. exfalso.
  exact (placeholder_not_inside k' k Hk' Hk Hne u1 u2 s r E Hu2 F).
Qed.

(** One replacement on a well-formed document fills the holes of its key
    and nothing else. *)
Lemma replace_flatten (k v : str) (ps : list piece) :
  brace_free k = true ->
  forallb well_formed ps = true ->
  replace (placeholder k) v (flatten ps) = flatten (map (fill_key k v) ps).
Proof.
  intros Hk. induction ps as [|p ps IH]; intros Hps; [reflexivity|].
  cbn [forallb] in Hps. apply andb_true_iff in Hps as [Hp Hps].
  unfold flatten in *. cbn [flat_map map].
  destruct p as [t|k']; cbn [piece_text fill_key well_formed] in *.
  - rewrite replace_over_text by exact Hp. now rewrite IH.
  - destruct (str_eqb k k') eqn:E.
    + apply str_eqb_eq in E. subst k'. cbn [piece_text].
      rewrite replace_placeholder_here. now rewrite IH.
    + cbn [piece_text]. rewrite replace_over_hole; [now rewrite IH|..];
        try assumption.
      intros ->. assert (str_eqb k' k' = true) by now apply str_eqb_eq.
      congruence.
Qed.

Lemma fill_key_well_formed (k v : str) (ps : list piece) :
  plain v = true ->
  forallb well_formed ps = true ->
  forallb well_formed (map (fill_key k v) ps) = true.
Proof.
  intros Hv. induction ps as [|p ps IH]; intros Hps; [reflexivity|].
  cbn [forallb map] in *. apply andb_true_iff in Hps as [Hp Hps].
  rewrite (IH Hps), andb_true_r.
  destruct p as [t|k']; cbn [fill_key]; [exact Hp|].
  now destruct (str_eqb k k').
Qed.

Lemma fill_cons (k v : str) (ctx : context) (p : piece) :
  fill ((k, v) :: ctx) p = fill ctx (fill_key k v p).
Proof.
  destruct p as [t|k']; cbn [fill fill_key get]; [reflexivity|].
  now destruct (str_eqb k k').
Qed.

Lemma simultaneous_nil (ps : list piece) : simultaneous [] ps = flatten ps.
Proof.
  unfold simultaneous, flatten. apply flat_map_ext. now intros [t|k].
Qed.

Lemma simultaneous_cons (k v : str) (ctx : context) (ps : list piece) :
  simultaneous ((k, v) :: ctx) ps = simultaneous ctx (map (fill_key k v) ps).
Proof.
  unfold simultaneous. induction ps as [|p ps IH]; [reflexivity|].
  cbn [flat_map map]. now rewrite IH, fill_cons.
Qed.

(** On a well-formed document the sequence of replacements is the
    simultaneous substitution. *)
Lemma substitute_flatten (ctx : context) (ps : list piece) :
  plain_context ctx ->
  forallb well_formed ps = true ->
  substitute ctx (flatten ps) = simultaneous ctx ps.
Proof.
  revert ps; induction ctx as [|[k v] ctx IH]; intros ps Hctx Hps.
  - symmetry. apply simultaneous_nil.
  - apply Forall_cons_iff in Hctx as [[Hk Hv] Hctx]. cbn [fst snd] in Hk, Hv.
    rewrite substitute_cons, replace_flatten by assumption.
    rewrite IH by (try assumption; now apply fill_key_well_formed).
    now rewrite simultaneous_cons.
Qed.

(** A dictionary gives the same value whatever the order of its items. *)
Lemma get_permutation (ctx ctx' : context) (key default : str) :
  NoDup (map fst ctx) -> Permutation ctx ctx' ->
  get ctx key default = get ctx' key default.
Proof.
  intros Hnd Hp. induction Hp as [|[k v] l l' Hp IH|[k1 v1] [k2 v2] l|l l' l'' H1 IH1 H2 IH2].
  - reflexivity.
  - cbn [get]. destruct (str_eqb k key); [reflexivity|].
    apply IH. now inversion Hnd.
  - cbn [get]. destruct (str_eqb k1 key) eqn:E1, (str_eqb k2 key) eqn:E2;
      try reflexivity.
    apply str_eqb_eq in E1, E2. subst. simpl in Hnd.
    inversion Hnd as [|x xs Hin _]. exfalso. apply Hin. now left.
  - rewrite IH1 by exact Hnd. apply IH2.
    apply (Permutation_NoDup (Permutation_map fst H1) Hnd).
Qed.

Lemma simultaneous_permutation (ctx ctx' : context) (ps : list piece) :
  NoDup (map fst ctx) -> Permutation ctx ctx' ->
  simultaneous ctx ps = simultaneous ctx' ps.
Proof.
  intros Hnd Hp. unfold simultaneous. apply flat_map_ext.
  intros [t|k]; cbn [fill]; [reflexivity|]. now apply get_permutation.
Qed.

End WellFormed.

Section Extraction.

Lemma search_Some {A} (m : str -> option A) (s : str) (r : A) :
  search m s = Some r ->
  exists pre t, s = pre ++ t /\ m t = Some r
                /\ matches_before m (length pre) s = false.
Proof.
  induction s as [|c s IH]; simpl; intros H.
  - destruct (m []) eqn:E; [|discriminate]. exists [], []. now rewrite E.
  - destruct (m (c :: s)) eqn:E.
    + exists [], (c :: s). now rewrite E.
    + destruct (IH H) as (pre & t & -> & Ht & Hpre).
      exists (c :: pre), t. simpl. now rewrite E.
Qed.

Lemma lazy_any_then_minimal (l s g rest : str) :
  lazy_any_then l s = Some (g, rest) ->
  matches_before (strip_prefix l) (length g) s = false.
Proof.
  revert g; induction s as [|c s IH]; intros g; simpl.
  - destruct (strip_prefix l []); [|discriminate]. now intros [= <- <-].
  - destruct (strip_prefix l (c :: s)) eqn:E; [now intros [= <- <-]|].
    destruct (lazy_any_then l s) as [[g' r']|]; [|discriminate].
    simpl. intros [= <- <-]. simpl. rewrite E. now apply IH.
Qed.

Lemma matches_before_occurrence {A} (m : str -> option A) (a s : str)
      (n : nat) (r : A) :
  m s = Some r -> length a < n -> matches_before m n (a ++ s) = true.
Proof.
  intros Hm. revert n; induction a as [|c a IH]; intros n Hn.
  - destruct n; [lia|]. simpl. now rewrite Hm.
  - destruct n; [simpl in Hn; lia|]. simpl.
    destruct (m (c :: a ++ s)); [reflexivity|]. apply IH. simpl in Hn. lia.
Qed.

(** A text in which the literal is found first at its end does not hold
    the literal. *)
Lemma first_occurrence_lacks (l g rest : str) :
  l <> [] ->
  matches_before (strip_prefix l) (length g) (g ++ l ++ rest) = false ->
  contains l g = false.
Proof.
  intros Hl H. destruct (contains l g) eqn:E; [|reflexivity].
  apply contains_true in E as (a & b & ->).
  rewrite <- !app_assoc in H.
  rewrite (matches_before_occurrence _ a _ _ (b ++ l ++ rest)) in H.
  - discriminate.
  - apply strip_prefix_app.
  - rewrite !length_app. destruct l; [congruence|]. simpl. lia.
Qed.





End Extraction.

Section Directive.

(** A text without the first character of a literal does not hold the
    literal. *)
Lemma contains_lacks_head (c : ascii) (p s : str) :
  lacks c s = true -> contains (c :: p) s = false.
Proof.
  induction s as [|x s IH]; [reflexivity|].
  intros H. cbn [lacks forallb] in H. apply andb_true_iff in H as [Hx Hs].
  cbn [contains]. rewrite (IH Hs), orb_false_r.
  unfold startswith. cbn [strip_prefix].
  apply negb_true_iff in Hx. rewrite Ascii.eqb_sym in Hx. now rewrite Hx.
Qed.

(** Two quoted names of which one is a prefix of the other are equal. *)
Lemma strip_prefix_quoted (p name rest rest' r : str) :
  quote_free p = true -> quote_free name = true ->
  strip_prefix (p ++ dquote :: rest) (name ++ dquote :: rest') = Some r ->
  name = p.
Proof.
  revert name. induction p as [|a p IH]; intros [|c name] Hp Hn H.
  - reflexivity.
  - exfalso. cbn [app strip_prefix] in H.
    destruct (Ascii.eqb dquote c) eqn:E; [|discriminate].
    apply Ascii.eqb_eq in E. subst c. discriminate Hn.
  - exfalso. cbn [app strip_prefix] in H.
    destruct (Ascii.eqb a dquote) eqn:E; [|discriminate].
    apply Ascii.eqb_eq in E. subst a. discriminate Hp.
  - cbn [app strip_prefix] in H.
    destruct (Ascii.eqb a c) eqn:E; [|discriminate].
    apply Ascii.eqb_eq in E. subst c. f_equal.
    unfold quote_free in *. cbn [lacks forallb] in Hp, Hn.
    apply andb_true_iff in Hp as [_ Hp]. apply andb_true_iff in Hn as [_ Hn].
    now apply IH.
Qed.

(** A directive that names a document selects the Inheriting state only
    for the name [base.html]. *)
Lemma extends_directive_state (name : str) :
  lacks "{"%char name = true -> quote_free name = true ->
  state_of (extends_directive name) = Inheriting <-> name = lit "base.html".
Proof.
  intros Hb Hq. split; [|now intros ->].
  unfold state_of. destruct (contains extends_marker _) eqn:E; [|discriminate].
  intros _. unfold extends_directive in E.
  change (lit "{% extends " ++ [dquote] ++ name ++ [dquote] ++ lit " %}")
    with ("{"%char :: lit "% extends " ++ dquote :: name ++ dquote :: lit " %}")
    in E.
  cbn [contains] in E. apply orb_true_iff in E as [E|E].
  - unfold startswith in E.
    destruct (strip_prefix extends_marker _) as [r|] eqn:Es; [|discriminate].
    change extends_marker
      with (lit "{% extends " ++ dquote :: lit "base.html" ++ dquote :: lit " %}")
      in Es.
    change ("{"%char :: lit "% extends " ++ dquote :: name ++ dquote :: lit " %}")
      with (lit "{% extends " ++ dquote :: name ++ dquote :: lit " %}") in Es.
    cbn in Es.
    apply (strip_prefix_quoted (lit "base.html") name (lit " %}") (lit " %}") r);
      [reflexivity|exact Hq|exact Es].
  - exfalso. change extends_marker with ("{"%char :: tl extends_marker) in E.
    rewrite contains_lacks_head in E; [discriminate|].
    change (lit "% extends " ++ dquote :: name ++ dquote :: lit " %}")
      with (lit "% extends " ++ [dquote] ++ name ++ lit (String dquote " %}")) in E |- *.
    unfold lacks. rewrite !forallb_app. fold (lacks "{"%char name).
    now rewrite Hb.
Qed.

End Directive.

(** * The claims *)

(** C1, as stated, fails: with [base.html] absent, the document that
    consists of the extends directive is rendered to itself and no error is
    raised. *)
Lemma C1_counterexample :
  state_of extends_marker = Inheriting
  /\ only_base Absent base_path = Absent
  /\ render_template (only_base Absent) extends_marker [] = Ok extends_marker.
Proof. repeat split. Qed.

(** C1, amended: for an Inheriting-state document, when [base.html] is
    absent the render does not fail and returns the child document itself
    after variable substitution and conditional class resolution; when
    [base.html] exists and cannot be read the render fails with [OSError]. *)
Theorem C1_missing_base (fs : filesystem) (content : str) (ctx : context) :
  state_of content = Inheriting ->
  (fs base_path = Absent ->
   render_template fs content ctx
   = Ok (resolve_active ctx (substitute ctx content)))
  /\ (fs base_path = Unreadable ->
      render_template fs content ctx = Raise OSError).
Proof.
  intros H. unfold render_template, compose. rewrite H.
  split; intros ->; reflexivity.
Qed.

Lemma C1_missing_base_witness :
  state_of (extends_marker ++ lit "<p>{{ title }}</p>") = Inheriting
  /\ (only_base Absent base_path = Absent ->
      render_template (only_base Absent)
                      (extends_marker ++ lit "<p>{{ title }}</p>")
                      [(lit "title", lit "Docs")]
      = Ok (resolve_active [(lit "title", lit "Docs")]
              (substitute [(lit "title", lit "Docs")]
                          (extends_marker ++ lit "<p>{{ title }}</p>"))))
  /\ (only_base Unreadable base_path = Unreadable ->
      render_template (only_base Unreadable)
                      (extends_marker ++ lit "<p>{{ title }}</p>")
                      [(lit "title", lit "Docs")]
      = Raise OSError).
Proof.
  split; [reflexivity|]. split.
  - apply (C1_missing_base (only_base Absent)). reflexivity.
  - apply (C1_missing_base (only_base Unreadable)). reflexivity.
Defined.

(** C2, as stated, fails: a child without content block leaves the base
    as it is, the delimiters of its content block included. *)
Lemma C2_counterexample :
  search_block (lit "content") extends_marker = None
  /\ render_template
       (only_base
          (Readable
             (lit "<body>{% block content %}DEFAULT{% endblock %}</body>")))
       extends_marker []
     = Ok (lit "<body>{% block content %}DEFAULT{% endblock %}</body>")
  /\ lit "<body>{% block content %}DEFAULT{% endblock %}</body>"
     <> lit "<body>DEFAULT</body>".
Proof. repeat split. discriminate. Qed.

(** C2, amended: for an Inheriting-state child in which the open marker of
    the content block does not occur, the content step returns the base
    document unchanged, block delimiters included, and that text is what
    the title step receives.  When, moreover, neither the child nor the
    base has the open marker of the title block and the title of the
    context has no backslash, the render is the base document itself, with
    the delimiters of its content block, after variable substitution and
    conditional class resolution. *)
Theorem C2_no_content_block (fs : filesystem) (content base : str)
        (ctx : context) :
  state_of content = Inheriting ->
  fs base_path = Readable base ->
  contains (block_open (lit "content")) content = false ->
  splice_content content base = Ok base
  /\ compose fs content ctx = splice_title content ctx base
  /\ (contains (block_open (lit "title")) content = false ->
      contains (block_open (lit "title")) base = false ->
      backslash_free (get ctx (lit "title") (lit "WasmWiz")) = true ->
      render_template fs content ctx
      = Ok (resolve_active ctx (substitute ctx base))).
Proof.
  intros Hs Hb Hc.
  assert (splice_content content base = Ok base) as E.
  { unfold splice_content. now rewrite search_block_needs_open. }
  assert (compose fs content ctx = splice_title content ctx base) as E2.
  { unfold compose. now rewrite Hs, Hb, E. }
  split; [exact E|]. split; [exact E2|].
  intros Ht Hbt Hbs. unfold render_template. rewrite E2.
  unfold splice_title. rewrite (search_block_needs_open _ _ Ht).
  now rewrite (sub_block_no_block _ _ _ Hbs Hbt).
Qed.

Lemma C2_no_content_block_witness :
  state_of extends_marker = Inheriting
  /\ only_base (Readable (lit "<b>{% block content %}D{% endblock %}</b>"))
               base_path
     = Readable (lit "<b>{% block content %}D{% endblock %}</b>")
  /\ contains (block_open (lit "content")) extends_marker = false
  /\ splice_content extends_marker
                    (lit "<b>{% block content %}D{% endblock %}</b>")
     = Ok (lit "<b>{% block content %}D{% endblock %}</b>")
  /\ compose
       (only_base (Readable (lit "<b>{% block content %}D{% endblock %}</b>")))
       extends_marker []
     = splice_title extends_marker []
                    (lit "<b>{% block content %}D{% endblock %}</b>")
  /\ (contains (block_open (lit "title")) extends_marker = false ->
      contains (block_open (lit "title"))
               (lit "<b>{% block content %}D{% endblock %}</b>") = false ->
      backslash_free (get [] (lit "title") (lit "WasmWiz")) = true ->
      render_template
        (only_base (Readable (lit "<b>{% block content %}D{% endblock %}</b>")))
        extends_marker []
      = Ok (resolve_active []
              (substitute []
                 (lit "<b>{% block content %}D{% endblock %}</b>")))).
Proof.
  split; [reflexivity|]. split; [reflexivity|]. split; [reflexivity|].
  apply C2_no_content_block; reflexivity.
Defined.




(** A child with a closed content block and a title block that is never
    closed: the content block is spliced, the open title marker is ignored
    and the title of the context is used. *)
Example unclosed_title_rendered :
  search_block (lit "content") unclosed_title_child = Some (lit "C")
  /\ search_block (lit "title") unclosed_title_child = None
  /\ render_template (only_base (Readable two_block_base))
                     unclosed_title_child [(lit "title", lit "Docs")]
     = Ok (lit "<t>Docs</t><b>C</b>").
Proof. repeat split. Qed.

(** A child with a content block that is never closed and a closed title
    block whose text is not a valid replacement template: the error is the
    one of the title block, with a valid title in the context. *)
Example unclosed_content_bad_title :
  search_block (lit "content") unclosed_content_child = None
  /\ search_block (lit "title") unclosed_content_child = Some (lit "a\qb")
  /\ render_template (only_base (Readable two_block_base))
                     unclosed_content_child [(lit "title", lit "Docs")]
     = Raise TemplateError.
Proof. repeat split. Qed.

(** C4, as stated, fails on the side of the splice: a base with two
    content blocks has both replaced with the content block of the child. *)
Lemma C4_counterexample :
  render_template
    (only_base
       (Readable
          (lit "{% block content %}A{% endblock %}-{% block content %}B{% endblock %}")))
    (extends_marker ++ lit "{% block content %}X{% endblock %}") []
  = Ok (lit "X-X")
  /\ lit "X-X" <> lit "X-{% block content %}B{% endblock %}".
Proof. split; [reflexivity|discriminate]. Qed.

(** C4, amended: the extraction takes the first block of the child with
    the given name and ignores what follows it; the splice puts the
    extracted (stripped, backslash-free) text in place of the first block
    of the base and treats the text after that block in the same way, so
    that every block of that name in the base is replaced.  This holds for
    the content block and for the title block. *)
Theorem C4_first_extracted_all_spliced
        (name cpre cinner cpost bpre binner bpost : str) :
  first_block name cpre cinner cpost = true ->
  first_block name bpre binner bpost = true ->
  backslash_free (strip cinner) = true ->
  search_block name (with_block name cpre cinner cpost) = Some cinner
  /\ exists r,
      sub_block name (strip cinner) bpost = Ok r
      /\ sub_block name (strip cinner) (with_block name bpre binner bpost)
         = Ok (bpre ++ strip cinner ++ r)
      /\ (name = lit "content" ->
          splice_content (with_block name cpre cinner cpost)
                         (with_block name bpre binner bpost)
          = Ok (bpre ++ strip cinner ++ r))
      /\ (name = lit "title" ->
          forall ctx,
            splice_title (with_block name cpre cinner cpost) ctx
                         (with_block name bpre binner bpost)
            = Ok (bpre ++ strip cinner ++ r)).
Proof.
  intros Hc Hb Hs.
  pose proof (search_block_first _ _ _ _ Hc) as Esearch.
  split; [exact Esearch|].
  destruct (sub_block_literal_ok name (strip cinner) bpost Hs) as [r Hr].
  assert (sub_block name (strip cinner) (with_block name bpre binner bpost)
          = Ok (bpre ++ strip cinner ++ r)) as Esub.
  { rewrite sub_block_first by assumption. now rewrite Hr. }
  exists r. split; [exact Hr|]. split; [exact Esub|]. split.
  - intros ->. unfold splice_content. now rewrite Esearch.
  - intros -> ctx. unfold splice_title. now rewrite Esearch.
Qed.

Lemma C4_first_extracted_all_spliced_witness :
  first_block (lit "content") extends_marker (lit " X ")
              (lit "{% block content %}Y{% endblock %}") = true
  /\ first_block (lit "content") (lit "<p>") (lit "A")
                 (lit "</p>{% block content %}B{% endblock %}") = true
  /\ backslash_free (strip (lit " X ")) = true
  /\ search_block (lit "content")
       (with_block (lit "content") extends_marker (lit " X ")
                   (lit "{% block content %}Y{% endblock %}"))
     = Some (lit " X ")
  /\ exists r,
      sub_block (lit "content") (strip (lit " X "))
                (lit "</p>{% block content %}B{% endblock %}") = Ok r
      /\ sub_block (lit "content") (strip (lit " X "))
           (with_block (lit "content") (lit "<p>") (lit "A")
                       (lit "</p>{% block content %}B{% endblock %}"))
         = Ok (lit "<p>" ++ strip (lit " X ") ++ r)
      /\ (lit "content" = lit "content" ->
          splice_content
            (with_block (lit "content") extends_marker (lit " X ")
                        (lit "{% block content %}Y{% endblock %}"))
            (with_block (lit "content") (lit "<p>") (lit "A")
                        (lit "</p>{% block content %}B{% endblock %}"))
          = Ok (lit "<p>" ++ strip (lit " X ") ++ r))
      /\ (lit "content" = lit "title" ->
          forall ctx,
            splice_title
              (with_block (lit "content") extends_marker (lit " X ")
                          (lit "{% block content %}Y{% endblock %}"))
              ctx
              (with_block (lit "content") (lit "<p>") (lit "A")
                          (lit "</p>{% block content %}B{% endblock %}"))
            = Ok (lit "<p>" ++ strip (lit " X ") ++ r)).
Proof.
  split; [reflexivity|]. split; [reflexivity|]. split; [reflexivity|].
  apply C4_first_extracted_all_spliced; reflexivity.
Defined.

(** C5, as stated, fails: the value inserted for [a] is scanned again when
    the later key [b] is treated, so the result depends on the order of the
    keys; and with values that have no brace at all, the braces of the
    document around a placeholder make a new placeholder with the inserted
    value. *)
Lemma C5_counterexample :
  NoDup (map fst [(lit "a", lit "{{ b }}"); (lit "b", lit "X")])
  /\ substitute [(lit "a", lit "{{ b }}"); (lit "b", lit "X")] (lit "{{ a }}")
     = lit "X"
  /\ substitute [(lit "b", lit "X"); (lit "a", lit "{{ b }}")] (lit "{{ a }}")
     = lit "{{ b }}"
  /\ lit "X" <> lit "{{ b }}"
  /\ NoDup (map fst [(lit "a", lit "b"); (lit "b", lit "X")])
  /\ substitute [(lit "a", lit "b"); (lit "b", lit "X")] (lit "{{ {{ a }} }}")
     = lit "X"
  /\ substitute [(lit "b", lit "X"); (lit "a", lit "b")] (lit "{{ {{ a }} }}")
     = lit "{{ b }}".
Proof.
  assert (forall v w : str, NoDup (map fst [(lit "a", v); (lit "b", w)]))
    as Hnd.
  { intros v w. repeat constructor; simpl; intuition discriminate. }
  repeat split; try apply Hnd. discriminate.
Qed.

(** C5, amended: on a well-formed document (plain text and placeholders of
    keys without brace), with a context whose keys are distinct and without
    brace and whose values are plain text, variable substitution equals the
    simultaneous substitution and does not depend on the order of the keys.
    In general substitution is one [str.replace] per key in the order of
    the context: the inserted value is not scanned again for its own key,
    but it is scanned for every later key, and only the value of the last
    key is never scanned again. *)
Theorem C5_substitution (ctx ctx' : context) (ps : list piece)
        (k v d : str) (ctx0 : context) :
  plain_context ctx ->
  forallb well_formed ps = true ->
  NoDup (map fst ctx) ->
  Permutation ctx ctx' ->
  substitute ctx (flatten ps) = simultaneous ctx ps
  /\ substitute ctx' (flatten ps) = substitute ctx (flatten ps)
  /\ replace (placeholder k) v (placeholder k ++ d)
     = v ++ replace (placeholder k) v d
  /\ substitute ((k, v) :: ctx0) (placeholder k) = substitute ctx0 v
  /\ substitute (ctx0 ++ [(k, v)]) d
     = replace (placeholder k) v (substitute ctx0 d).
Proof.
  intros Hctx Hps Hnd Hperm.
  assert (plain_context ctx') as Hctx'
      by exact (Permutation_Forall Hperm Hctx).
  split; [now apply substitute_flatten|].
  split.
  { rewrite !substitute_flatten by assumption.
    symmetry. now apply simultaneous_permutation. }
  split; [apply replace_placeholder_here|]. split; [|apply substitute_snoc].
  rewrite substitute_cons. f_equal.
  rewrite <- (app_nil_r (placeholder k)) at 2.
  now rewrite replace_placeholder_here, replace_placeholder_nil, app_nil_r.
Qed.

Lemma C5_substitution_witness :
  plain_context (serve_context (lit "/docs"))
  /\ forallb well_formed
       [Text (lit "<title>"); Hole (lit "title");
        Text (lit "</title>{% if x %}<input value="); Hole (lit "csrf_token");
        Text (lit ">"); Hole (lit "user")] = true
  /\ NoDup (map fst (serve_context (lit "/docs")))
  /\ Permutation (serve_context (lit "/docs"))
                 (rev (serve_context (lit "/docs")))
  /\ substitute (serve_context (lit "/docs"))
       (flatten
          [Text (lit "<title>"); Hole (lit "title");
           Text (lit "</title>{% if x %}<input value="); Hole (lit "csrf_token");
           Text (lit ">"); Hole (lit "user")])
     = simultaneous (serve_context (lit "/docs"))
         [Text (lit "<title>"); Hole (lit "title");
          Text (lit "</title>{% if x %}<input value="); Hole (lit "csrf_token");
          Text (lit ">"); Hole (lit "user")]
  /\ substitute (rev (serve_context (lit "/docs")))
       (flatten
          [Text (lit "<title>"); Hole (lit "title");
           Text (lit "</title>{% if x %}<input value="); Hole (lit "csrf_token");
           Text (lit ">"); Hole (lit "user")])
     = substitute (serve_context (lit "/docs"))
         (flatten
            [Text (lit "<title>"); Hole (lit "title");
             Text (lit "</title>{% if x %}<input value=");
             Hole (lit "csrf_token"); Text (lit ">"); Hole (lit "user")])
  /\ replace (placeholder (lit "a")) (lit "{{ b }}")
             (placeholder (lit "a") ++ lit "{{ a }}")
     = lit "{{ b }}"
         ++ replace (placeholder (lit "a")) (lit "{{ b }}") (lit "{{ a }}")
  /\ substitute ((lit "a", lit "{{ b }}") :: [(lit "b", lit "X")])
                (placeholder (lit "a"))
     = substitute [(lit "b", lit "X")] (lit "{{ b }}")
  /\ substitute ([(lit "b", lit "X")] ++ [(lit "a", lit "{{ b }}")])
                (lit "{{ a }}")
     = replace (placeholder (lit "a")) (lit "{{ b }}")
               (substitute [(lit "b", lit "X")] (lit "{{ a }}")).
Proof.
  assert (plain_context (serve_context (lit "/docs"))) as Hctx.
  { repeat constructor. }
  assert (NoDup (map fst (serve_context (lit "/docs")))) as Hnd.
  { repeat constructor; simpl; intuition discriminate. }
  split; [exact Hctx|]. split; [reflexivity|]. split; [exact Hnd|].
  split; [apply Permutation_rev|].
  apply C5_substitution;
    [exact Hctx|reflexivity|exact Hnd|apply Permutation_rev].
Defined.

(** C6, as stated, fails: a Standalone document with a conditional class
    attribute loses the directive although the context is empty. *)
Lemma C6_counterexample :
  state_of (class_fragment (lit "nav ") (lit "docs") []) = Standalone
  /\ render_template (only_base Absent)
                     (class_fragment (lit "nav ") (lit "docs") []) []
     = Ok (class_open ++ lit "nav " ++ [dquote])
  /\ class_open ++ lit "nav " ++ [dquote]
     <> class_fragment (lit "nav ") (lit "docs") [].
Proof. repeat split. discriminate. Qed.

(** C6, amended: rendering a Standalone document with an empty context
    returns the document unchanged exactly when the conditional class
    pattern matches nowhere in it. *)
Theorem C6_standalone_empty_context (fs : filesystem) (content : str) :
  state_of content = Standalone ->
  (render_template fs content [] = Ok content
   <-> matches_before match_class_at (length content) content = false).
Proof.
  intros Hs. rewrite (render_template_standalone _ _ _ Hs), substitute_nil.
  unfold resolve_active. set (m := class_repl (get [] (lit "active_page") [])).
  assert (matches_before m (length content) content
          = matches_before match_class_at (length content) content) as Em.
  { apply matches_before_same. intros t. symmetry. apply class_repl_none. }
  rewrite <- Em. split.
  - intros [= E]. destruct (matches_before m (length content) content) eqn:Hm;
      [|reflexivity].
    apply (scan_length_lt m (class_repl_consuming _) (class_repl_shrinks _))
      in Hm.
    rewrite E in Hm. lia.
  - intros Hm. f_equal. apply scan_unchanged; [apply class_repl_consuming|exact Hm].
Qed.

Lemma C6_standalone_empty_context_witness :
  state_of (lit "<p " ++ class_open ++ lit "x" ++ [dquote]
              ++ lit ">{{ title }}</p>") = Standalone
  /\ (render_template (only_base Absent)
                      (lit "<p " ++ class_open ++ lit "x" ++ [dquote]
                         ++ lit ">{{ title }}</p>") []
      = Ok (lit "<p " ++ class_open ++ lit "x" ++ [dquote]
              ++ lit ">{{ title }}</p>")
      <-> matches_before match_class_at
            (length (lit "<p " ++ class_open ++ lit "x" ++ [dquote]
                       ++ lit ">{{ title }}</p>"))
            (lit "<p " ++ class_open ++ lit "x" ++ [dquote]
               ++ lit ">{{ title }}</p>") = false).
Proof.
  split; [reflexivity|]. apply C6_standalone_empty_context. reflexivity.
Defined.



(** The navigation bar of [nav_example], rendered for the route [/docs]:
    the first attribute gets the token, the second gets nothing, and the
    ordinary class attribute is untouched. *)
Example nav_example_rendered :
  render_template (only_base Absent)
                  (document nav_example (lit ">FAQ</a></li>"))
                  (serve_context (lit "/docs"))
  = Ok (lit "<li class=" ++ [dquote] ++ lit "item" ++ [dquote] ++ lit "><a "
          ++ class_open ++ lit "nav-link active" ++ [dquote]
          ++ lit " href=/docs>Docs</a><a "
          ++ class_open ++ lit "nav-link  last" ++ [dquote]
          ++ lit ">FAQ</a></li>").
Proof. reflexivity. Qed.

(** Two directives in one class attribute are one match of the pattern:
    the first is resolved, and the text of the second, cut at its double
    quote, is the literal class text after it; the second directive stays
    in the output. *)
Example two_directives_in_one_attribute :
  resolve_active [(lit "active_page", lit "a")]
    (class_fragment [] (lit "a") (lit " {% if active_page == ")
       ++ lit "b" ++ if_close ++ [dquote])
  = class_open ++ lit "active {% if active_page == " ++ [dquote]
      ++ lit "b" ++ if_close ++ [dquote].
Proof. reflexivity. Qed.




(** C9: a document is in the Inheriting state exactly when the literal
    extends directive for [base.html] occurs somewhere in its text, and the
    state decides where the render comes from.  A Standalone document is
    rendered from its own text, without the templates directory.  An
    Inheriting document is rendered from [base.html]: from the two splices
    into the text of the base when it can be read (so from the base alone
    when the base holds no block), with the error of [open] when it cannot
    be opened, and from its own text only when there is no such file.
    Hence, with a [base.html] that cannot be opened, the render fails
    exactly when the literal occurs.  No other base document is recognised
    or loaded: a directive alone that names a document selects the
    Inheriting state only for the name [base.html], and two directories
    that agree on [base.html] give the same render. *)
Theorem C9_extends_literal (fs fs' : filesystem) (content : str)
        (ctx : context) :
  fs base_path = fs' base_path ->
  (state_of content = Inheriting
   <-> exists pre post, content = pre ++ extends_marker ++ post)
  /\ (state_of content = Standalone ->
      render_template fs content ctx
      = Ok (resolve_active ctx (substitute ctx content)))
  /\ (state_of content = Inheriting ->
      render_template fs content ctx
      = match fs base_path with
        | Readable base =>
            r1 <- splice_content content base ;;
            r2 <- splice_title content ctx r1 ;;
            Ok (resolve_active ctx (substitute ctx r2))
        | Unreadable => Raise OSError
        | Absent => Ok (resolve_active ctx (substitute ctx content))
        end)
  /\ (state_of content = Inheriting ->
      forall base,
        fs base_path = Readable base ->
        contains (block_open (lit "content")) base = false ->
        contains (block_open (lit "title")) base = false ->
        (forall repl, In repl (replacements content ctx) ->
                      backslash_free repl = true) ->
        render_template fs content ctx
        = Ok (resolve_active ctx (substitute ctx base)))
  /\ ((exists pre post, content = pre ++ extends_marker ++ post)
      <-> render_template (only_base Unreadable) content ctx = Raise OSError)
  /\ (forall name,
         lacks "{"%char name = true -> quote_free name = true ->
         (state_of (extends_directive name) = Inheriting
          <-> name = lit "base.html"))
  /\ render_template fs content ctx = render_template fs' content ctx.
Proof.
  intros Hfs.
  assert (state_of content = Inheriting
          <-> exists pre post, content = pre ++ extends_marker ++ post) as Hst.
  { rewrite <- contains_iff. unfold state_of.
    destruct (contains extends_marker content); split; congruence. }
  split; [exact Hst|]. split; [apply render_template_standalone|].
  split; [|split; [|split; [|split]]].
  - intros Hs. unfold render_template, compose. rewrite Hs.
    destruct (fs base_path) as [| |base]; try reflexivity.
    destruct (splice_content content base) as [r1|e]; [|reflexivity].
    cbn [bind]. now destruct (splice_title content ctx r1).
  - intros Hs base Hb Hc Ht Hrepl.
    unfold render_template, compose. rewrite Hs, Hb.
    unfold splice_content, splice_title. unfold replacements in Hrepl.
    destruct (search_block (lit "content") content) as [g|];
      destruct (search_block (lit "title") content) as [g'|];
      cbn [app] in Hrepl; cbn [bind];
      repeat (rewrite sub_block_no_block;
              [|apply Hrepl; cbn [In]; now auto|assumption]; cbn [bind]);
      reflexivity.
  - rewrite <- Hst. split.
    + intros Hs. unfold render_template, compose. now rewrite Hs.
    + intros H. destruct (state_of content) eqn:Hs; [|reflexivity].
      rewrite (render_template_standalone _ _ _ Hs) in H. discriminate.
  - intros name. apply extends_directive_state.
  - unfold render_template, compose. now rewrite Hfs.
Qed.

Lemma C9_extends_literal_witness :
  only_base (Readable plain_base) base_path = base_and_other base_path
  /\ (state_of commented_directive = Inheriting
      <-> exists pre post, commented_directive = pre ++ extends_marker ++ post)
  /\ (state_of commented_directive = Standalone ->
      render_template (only_base (Readable plain_base)) commented_directive []
      = Ok (resolve_active [] (substitute [] commented_directive)))
  /\ (state_of commented_directive = Inheriting ->
      render_template (only_base (Readable plain_base)) commented_directive []
      = match only_base (Readable plain_base) base_path with
        | Readable base =>
            r1 <- splice_content commented_directive base ;;
            r2 <- splice_title commented_directive [] r1 ;;
            Ok (resolve_active [] (substitute [] r2))
        | Unreadable => Raise OSError
        | Absent => Ok (resolve_active [] (substitute [] commented_directive))
        end)
  /\ (state_of commented_directive = Inheriting ->
      forall base,
        only_base (Readable plain_base) base_path = Readable base ->
        contains (block_open (lit "content")) base = false ->
        contains (block_open (lit "title")) base = false ->
        (forall repl, In repl (replacements commented_directive []) ->
                      backslash_free repl = true) ->
        render_template (only_base (Readable plain_base)) commented_directive []
        = Ok (resolve_active [] (substitute [] base)))
  /\ ((exists pre post, commented_directive = pre ++ extends_marker ++ post)
      <-> render_template (only_base Unreadable) commented_directive []
          = Raise OSError)
  /\ (forall name,
         lacks "{"%char name = true -> quote_free name = true ->
         (state_of (extends_directive name) = Inheriting
          <-> name = lit "base.html"))
  /\ render_template (only_base (Readable plain_base)) commented_directive []
     = render_template base_and_other commented_directive [].
Proof.
  split; [reflexivity|]. apply C9_extends_literal. reflexivity.
Defined.

(** The directive inside a comment selects the Inheriting state: the
    render is the base, and the text of the child is gone. *)
Example commented_directive_rendered :
  state_of commented_directive = Inheriting
  /\ render_template (only_base (Readable plain_base)) commented_directive []
     = Ok plain_base
  /\ render_template (only_base Unreadable) commented_directive []
     = Raise OSError.
Proof. repeat split. Qed.

(** A directive that names another base document does not select the
    Inheriting state. *)
Example other_base_is_standalone :
  state_of (lit "{% extends " ++ [dquote] ++ lit "layout.html" ++ [dquote]
              ++ lit " %}") = Standalone.
Proof. reflexivity. Qed.



(** * Further properties of the renderer *)

(** X9.  [re.search] for a block succeeds with group 1 equal to [g]
    exactly when the document is of the form [pre], open marker, [g], close
    marker, [post] with that block the first one; the text it extracts
    never holds a close marker. *)
Theorem search_block_characterised (name s g : str) :
  (search_block name s = Some g
   <-> exists pre post, s = with_block name pre g post
                        /\ first_block name pre g post = true)
  /\ (search_block name s = Some g -> contains block_close g = false).
Proof.
  assert (search_block name s = Some g ->
          exists pre post, s = with_block name pre g post
                           /\ first_block name pre g post = true) as Hfwd.
  { unfold search_block. intros H.
    destruct (search (match_block_at name) s) as [[g' rest]|] eqn:E;
      [|discriminate].
    simpl in H. injection H as ->.
    apply search_Some in E as (pre & t & -> & Ht & Hpre).
    pose proof Ht as Ht'. apply match_block_at_Some in Ht' as ->.
    exists pre, rest. split; [reflexivity|].
    unfold first_block, with_block. rewrite Hpre.
    unfold match_block_at in Ht. rewrite strip_prefix_app in Ht.
    now rewrite (lazy_any_then_minimal _ _ _ _ Ht). }
  split; [split|].
  - exact Hfwd.
  - intros (pre & post & -> & Hf). now apply search_block_first.
  - intros H. destruct (Hfwd H) as (pre & post & _ & Hf).
    unfold first_block in Hf. apply andb_true_iff in Hf as [_ Hf].
    apply negb_true_iff in Hf.
    apply (first_occurrence_lacks block_close g post); [discriminate|exact Hf].
Qed.

(** Where the class pattern matches nowhere, the resolver returns its
    input. *)
Lemma resolve_active_unmatched (ctx : context) (s : str) :
  matches_before match_class_at (length s) s = false ->
  resolve_active ctx s = s.
Proof.
  intros Hm. unfold resolve_active.
  apply scan_unchanged; [apply class_repl_consuming|].
  rewrite <- Hm. apply matches_before_same. intros t. symmetry.
  apply class_repl_none.
Qed.

(** X10.  The conditional class resolver never lengthens a document, and
    it returns the document itself exactly when the pattern matches nowhere
    in it. *)
Theorem resolve_active_shrinks (ctx : context) (s : str) :
  length (resolve_active ctx s) <= length s
  /\ (resolve_active ctx s = s
      <-> matches_before match_class_at (length s) s = false).
Proof.
  unfold resolve_active. set (m := class_repl (get ctx (lit "active_page") [])).
  assert (matches_before m (length s) s
          = matches_before match_class_at (length s) s) as Em.
  { apply matches_before_same. intros t. symmetry. apply class_repl_none. }
  rewrite <- Em. split.
  - apply scan_length_le; [apply class_repl_consuming|apply class_repl_shrinks].
  - split.
    + intros E. destruct (matches_before m (length s) s) eqn:Hm; [|reflexivity].
      apply (scan_length_lt m (class_repl_consuming _) (class_repl_shrinks _))
        in Hm.
      rewrite E in Hm. lia.
    + intros Hm. apply scan_unchanged; [apply class_repl_consuming|exact Hm].
Qed.

Section Passthrough.

(** A replacement whose pattern does not occur changes nothing. *)
Lemma replace_absent (old new d : str) :
  old <> [] -> contains old d = false -> replace old new d = d.
Proof.
  intros Hold Hd. destruct old as [|x old]; [congruence|].
  unfold replace. set (p := x :: old) in *.
  apply scan_unchanged; [now apply replace_at_consuming|].
  apply matches_before_none with (P := fun t => contains p t = false).
  - intros c t. apply contains_false_tail.
  - intros t Ht. unfold replace_at.
    destruct (strip_prefix p t) as [r|] eqn:E; [|reflexivity].
    apply strip_prefix_Some in E. subst t.
    pose proof (contains_occurrence p [] r) as Hc.
    change (contains p (p ++ r) = true) in Hc. congruence.
  - exact Hd.
Qed.

Lemma no_braces_no_placeholder (k d : str) :
  contains (lit "{{") d = false -> contains (placeholder k) d = false.
Proof.
  intros H. destruct (contains (placeholder k) d) eqn:E; [|reflexivity].
  apply contains_true in E as (pre & post & ->).
  rewrite placeholder_unfold in H.
  pose proof (contains_occurrence (lit "{{") pre
                (" "%char :: (k ++ lit " }}") ++ post)) as Hc.
  change (lit "{{" ++ " "%char :: (k ++ lit " }}") ++ post)
    with (("{"%char :: "{"%char :: " "%char :: k ++ lit " }}") ++ post) in Hc.
  change [" "%char; "}"%char; "}"%char] with (lit " }}") in H.
  congruence.
Qed.

Lemma substitute_no_braces (ctx : context) (d : str) :
  contains (lit "{{") d = false -> substitute ctx d = d.
Proof.
  intros H. induction ctx as [|[k v] ctx IH]; [reflexivity|].
  rewrite substitute_cons, replace_absent; [exact IH|discriminate|].
  now apply no_braces_no_placeholder.
Qed.

End Passthrough.

(** X11.  A document without two open braces in a row is left unchanged
    by variable substitution, whatever the context; when it is Standalone
    and the conditional class pattern matches nowhere in it, the render is
    the document itself. *)
Theorem placeholder_free_passthrough (fs : filesystem) (ctx : context)
        (d : str) :
  contains (lit "{{") d = false ->
  substitute ctx d = d
  /\ (state_of d = Standalone ->
      matches_before match_class_at (length d) d = false ->
      render_template fs d ctx = Ok d).
Proof.
  intros H. pose proof (substitute_no_braces ctx d H) as E.
  split; [exact E|]. intros Hs Hm.
  rewrite (render_template_standalone _ _ _ Hs), E. f_equal.
  now apply resolve_active_unmatched.
Qed.

Lemma placeholder_free_passthrough_witness :
  contains (lit "{{") (lit "<style>a { color: red }</style>{% if x %}") = false
  /\ substitute (serve_context (lit "/faq"))
                (lit "<style>a { color: red }</style>{% if x %}")
     = lit "<style>a { color: red }</style>{% if x %}"
  /\ (state_of (lit "<style>a { color: red }</style>{% if x %}") = Standalone ->
      matches_before match_class_at
        (length (lit "<style>a { color: red }</style>{% if x %}"))
        (lit "<style>a { color: red }</style>{% if x %}") = false ->
      render_template (only_base Absent)
                      (lit "<style>a { color: red }</style>{% if x %}")
                      (serve_context (lit "/faq"))
      = Ok (lit "<style>a { color: red }</style>{% if x %}")).
Proof.
  split; [reflexivity|].
  apply (placeholder_free_passthrough (only_base Absent)). reflexivity.
Defined.

(** * Properties of the request handler *)

Arguments STATIC_DIR : simpl never.
Arguments TEMPLATES_DIR : simpl never.

Section Paths.

Lemma endswith_app (suffix stem : str) : endswith suffix (stem ++ suffix) = true.
Proof. unfold endswith. rewrite rev_app_distr. apply startswith_app. Qed.

Lemma endswith_true (suffix s : str) :
  endswith suffix s = true -> exists stem, s = stem ++ suffix.
Proof.
  unfold endswith. intros H. apply startswith_true in H as [r Hr].
  exists (rev r). rewrite <- (rev_involutive s), Hr, rev_app_distr.
  now rewrite rev_involutive.
Qed.

Lemma endswith_iff (suffix s : str) :
  endswith suffix s = true <-> exists stem, s = stem ++ suffix.
Proof.
  split; [apply endswith_true|]. intros [stem ->]. apply endswith_app.
Qed.

(** [os.path.join] keeps an absolute second component alone. *)
Lemma path_join_absolute (a rest : str) :
  path_join a ("/"%char :: rest) = "/"%char :: rest.
Proof. reflexivity. Qed.

Lemma path_join_static_relative (filepath : str) :
  startswith (lit "/") filepath = false ->
  path_join STATIC_DIR filepath = STATIC_DIR ++ lit "/" ++ filepath.
Proof. intros H. unfold path_join. now rewrite H. Qed.

Lemma path_join_templates_relative (file_name : str) :
  startswith (lit "/") file_name = false ->
  path_join TEMPLATES_DIR file_name = TEMPLATES_DIR ++ lit "/" ++ file_name.
Proof. intros H. unfold path_join. now rewrite H. Qed.

(** The path of the base template is the one [os.path.join] builds. *)
Lemma base_path_join : base_path = path_join TEMPLATES_DIR (lit "base.html").
Proof. reflexivity. Qed.

Lemma do_GET_static (urlparse_path : str -> str) (d : disk)
      (self_path filepath : str) :
  urlparse_path self_path = lit "/static/" ++ filepath ->
  do_GET urlparse_path d self_path = serve_static_file (bytes_of d) filepath.
Proof.
  intros H. unfold do_GET. rewrite H, startswith_app. reflexivity.
Qed.

End Paths.

(** X1.  A request path that continues with a slash after [/static/]
    makes the handler serve the file at that absolute path: the static
    directory is left behind. *)
Theorem static_absolute_path_escapes (urlparse_path : str -> str) (d : disk)
        (self_path rest content : str) :
  urlparse_path self_path = lit "/static/" ++ "/"%char :: rest ->
  bytes_of d ("/"%char :: rest) = Readable content ->
  do_GET urlparse_path d self_path
  = Response (content_type_of ("/"%char :: rest)) (length content) content.
Proof.
  intros Hp Hf. rewrite (do_GET_static _ _ _ _ Hp).
  unfold serve_static_file. now rewrite path_join_absolute, Hf.
Qed.

Lemma static_absolute_path_escapes_witness :
  plain_target (lit "/static//etc/passwd")
  = lit "/static/" ++ "/"%char :: lit "etc/passwd"
  /\ bytes_of (one_static_file (lit "/etc/passwd") (lit "root:x:0:0"))
              ("/"%char :: lit "etc/passwd")
     = Readable (lit "root:x:0:0")
  /\ do_GET plain_target (one_static_file (lit "/etc/passwd") (lit "root:x:0:0"))
            (lit "/static//etc/passwd")
     = Response (content_type_of ("/"%char :: lit "etc/passwd"))
                (length (lit "root:x:0:0")) (lit "root:x:0:0").
Proof.
  split; [reflexivity|]. split; [reflexivity|].
  apply static_absolute_path_escapes; reflexivity.
Defined.

(** X2.  For a request path [/static/] followed by a relative file path,
    the handler looks at [STATIC_DIR/filepath] and at nothing else: it
    answers 404, naming the file path, exactly when nothing is there, 500
    exactly when what is there cannot be opened, and otherwise 200 with the
    bytes of the file, their number and the content type of the file
    path. *)
Theorem static_relative_path (urlparse_path : str -> str) (d : disk)
        (self_path filepath : str) :
  urlparse_path self_path = lit "/static/" ++ filepath ->
  startswith (lit "/") filepath = false ->
  (do_GET urlparse_path d self_path
   = SendError 404 (lit "Static file not found: " ++ filepath)
   <-> bytes_of d (STATIC_DIR ++ lit "/" ++ filepath) = Absent)
  /\ (do_GET urlparse_path d self_path
      = ServerError (lit "Error serving static file: ") OSError
      <-> bytes_of d (STATIC_DIR ++ lit "/" ++ filepath) = Unreadable)
  /\ (forall content,
         do_GET urlparse_path d self_path
         = Response (content_type_of filepath) (length content) content
         <-> bytes_of d (STATIC_DIR ++ lit "/" ++ filepath) = Readable content).
Proof.
  intros Hp Hrel. rewrite (do_GET_static _ _ _ _ Hp).
  unfold serve_static_file. rewrite (path_join_static_relative _ Hrel).
  destruct (bytes_of d (STATIC_DIR ++ lit "/" ++ filepath)) as [| |content'].
  - repeat split; intros; try discriminate; reflexivity.
  - repeat split; intros; try discriminate; reflexivity.
  - repeat split; intros H; try discriminate.
    + now injection H as _ <-.
    + now injection H as <-.
Qed.

Lemma static_relative_path_witness :
  plain_target (lit "/static/css/site.css") = lit "/static/" ++ lit "css/site.css"
  /\ startswith (lit "/") (lit "css/site.css") = false
  /\ (do_GET plain_target
             (one_static_file (STATIC_DIR ++ lit "/css/site.css") (lit "a{}"))
             (lit "/static/css/site.css")
      = SendError 404 (lit "Static file not found: " ++ lit "css/site.css")
      <-> bytes_of (one_static_file (STATIC_DIR ++ lit "/css/site.css")
                                    (lit "a{}"))
                   (STATIC_DIR ++ lit "/" ++ lit "css/site.css") = Absent)
  /\ (do_GET plain_target
             (one_static_file (STATIC_DIR ++ lit "/css/site.css") (lit "a{}"))
             (lit "/static/css/site.css")
      = ServerError (lit "Error serving static file: ") OSError
      <-> bytes_of (one_static_file (STATIC_DIR ++ lit "/css/site.css")
                                    (lit "a{}"))
                   (STATIC_DIR ++ lit "/" ++ lit "css/site.css") = Unreadable)
  /\ (forall content,
         do_GET plain_target
                (one_static_file (STATIC_DIR ++ lit "/css/site.css") (lit "a{}"))
                (lit "/static/css/site.css")
         = Response (content_type_of (lit "css/site.css")) (length content)
                    content
         <-> bytes_of (one_static_file (STATIC_DIR ++ lit "/css/site.css")
                                       (lit "a{}"))
                      (STATIC_DIR ++ lit "/" ++ lit "css/site.css")
             = Readable content).
Proof.
  split; [reflexivity|]. split; [reflexivity|].
  apply static_relative_path; reflexivity.
Defined.

(** The file of the witness above is served as a style sheet. *)
Example site_css_served :
  do_GET plain_target
         (one_static_file (STATIC_DIR ++ lit "/css/site.css") (lit "a{}"))
         (lit "/static/css/site.css")
  = Response (lit "text/css") 3 (lit "a{}").
Proof. reflexivity. Qed.

(** X3.  The content type of a static file is decided by the end of its
    path alone: [text/css] exactly for the paths that end with [.css],
    [application/javascript] exactly for those that end with [.js],
    [image/x-icon] exactly for those that end with [.ico], and
    [application/octet-stream] for every other path. *)
Theorem content_type_by_suffix (filepath : str) :
  (content_type_of filepath = lit "text/css"
   <-> exists stem, filepath = stem ++ lit ".css")
  /\ (content_type_of filepath = lit "application/javascript"
      <-> exists stem, filepath = stem ++ lit ".js")
  /\ (content_type_of filepath = lit "image/x-icon"
      <-> exists stem, filepath = stem ++ lit ".ico")
  /\ (content_type_of filepath = lit "application/octet-stream"
      <-> ~ (exists stem, filepath = stem ++ lit ".css")
          /\ ~ (exists stem, filepath = stem ++ lit ".js")
          /\ ~ (exists stem, filepath = stem ++ lit ".ico")).
Proof.
  rewrite <- !endswith_iff. unfold content_type_of.
  assert (forall stem, endswith (lit ".css") (stem ++ lit ".js") = false) as Hcj.
  { intros stem. unfold endswith. now rewrite rev_app_distr. }
  assert (forall stem, endswith (lit ".css") (stem ++ lit ".ico") = false) as Hci.
  { intros stem. unfold endswith. now rewrite rev_app_distr. }
  assert (forall stem, endswith (lit ".js") (stem ++ lit ".ico") = false) as Hji.
  { intros stem. unfold endswith. now rewrite rev_app_distr. }
  destruct (endswith (lit ".css") filepath) eqn:Ec.
  { repeat split; try discriminate; try reflexivity; try tauto.
    - intros H. apply endswith_true in H as [stem ->]. now rewrite Hcj in Ec.
    - intros H. apply endswith_true in H as [stem ->]. now rewrite Hci in Ec. }
  destruct (endswith (lit ".js") filepath) eqn:Ej.
  { repeat split; try discriminate; try reflexivity; try tauto.
    intros H. apply endswith_true in H as [stem ->]. now rewrite Hji in Ej. }
  destruct (endswith (lit ".ico") filepath) eqn:Ei.
  { repeat split; try discriminate; try reflexivity; tauto. }
  repeat split; try discriminate; try reflexivity; congruence.
Qed.

Section Routes.





Lemma serve_context_active_page (route default : str) :
  get (serve_context route) (lit "active_page") default
  = get_active_page route.
Proof. reflexivity. Qed.

End Routes.

(** X4.  The three tables of the handler have the same keys: a path has a
    template exactly when it has an active page identifier, and exactly
    when its title is not the fallback title; no such path starts with
    [/static/]; and two paths with templates that have the same active page
    identifier are the same path. *)
Theorem route_tables_agree (path path' : str) :
  (table_find route_map path <> None <-> get_active_page path <> [])
  /\ (table_find route_map path <> None
      <-> get_page_title path <> lit "WasmWiz - WebAssembly Execution API")
  /\ (table_find route_map path <> None ->
      startswith (lit "/static/") path = false)
  /\ (table_find route_map path <> None ->
      table_find route_map path' <> None ->
      get_active_page path = get_active_page path' -> path = path').
Proof.
  unfold get_active_page, get_page_title, route_map.
  cbn [table_find table_get].
  repeat match goal with
         | |- context [str_eqb ?a path] =>
             let E := fresh "E" in
             destruct (str_eqb a path) eqn:E;
             [apply str_eqb_eq in E; subst path|]
         end;
    repeat split;
    repeat match goal with
           | |- context [str_eqb ?a path'] =>
               let E := fresh "E" in
               destruct (str_eqb a path') eqn:E;
               [apply str_eqb_eq in E; subst path'|]
           end;
    intros;
    try reflexivity; try discriminate;
    try match goal with H : _ = _ |- _ => discriminate H end;
    try (exfalso; match goal with H : ?x <> ?x |- _ => now apply H end).
Qed.

Lemma route_tables_agree_witness :
  (table_find route_map (lit "/docs") <> None
   <-> get_active_page (lit "/docs") <> [])
  /\ (table_find route_map (lit "/docs") <> None
      <-> get_page_title (lit "/docs")
          <> lit "WasmWiz - WebAssembly Execution API")
  /\ (table_find route_map (lit "/docs") <> None ->
      startswith (lit "/static/") (lit "/docs") = false)
  /\ (table_find route_map (lit "/docs") <> None ->
      table_find route_map (lit "/faq") <> None ->
      get_active_page (lit "/docs") = get_active_page (lit "/faq") ->
      lit "/docs" = lit "/faq").
Proof. exact (route_tables_agree (lit "/docs") (lit "/faq")). Defined.

Section Pages.

Lemma utf8_encode_length (s : str) :
  length (utf8_encode s) = length s + count_non_ascii s.
Proof.
  unfold utf8_encode, count_non_ascii.
  induction s as [|c s IH]; [reflexivity|].
  cbn [flat_map filter]. rewrite length_app, IH. unfold utf8_char.
  destruct (nat_of_ascii c <? 128); simpl; lia.
Qed.


(** The induction of the resolver over the occurrences of a document. *)
Lemma resolve_active_document (ctx : context) (occs : list occurrence)
      (tail : str) :
  forallb independent occs = true ->
  contains if_open tail = false ->
  resolve_active ctx (document occs tail)
  = resolved (get ctx (lit "active_page") []) occs tail.
Proof.
  intros Hocc Htail.
  induction occs as [|o occs IH]; cbn [document resolved].
  - now apply resolve_active_no_directive.
  - cbn [forallb] in Hocc. apply andb_true_iff in Hocc as [Ho Hocc].
    unfold independent in Ho.
    repeat (apply andb_true_iff in Ho as [Ho ?]).
    apply negb_true_iff in Ho.
    assert (target o <> []) as Hne.
    { intros E. rewrite E in *. discriminate. }
    rewrite resolve_active_fragment; try assumption.
    + now rewrite IH.
    + unfold class_fragment. rewrite <- !app_assoc.
      now apply class_match_not_from_gap.
Qed.

End Pages.

(** X13.  Whatever the request, a 200 response of the handler announces
    as [Content-Length] the number of bytes of the body it sends. *)
Theorem content_length_is_body_length (urlparse_path : str -> str) (d : disk)
        (self_path content_type body : str) (content_length : nat) :
  do_GET urlparse_path d self_path
  = Response content_type content_length body ->
  content_length = length body.
Proof.
  unfold do_GET, serve_static_file, serve_template.
  repeat match goal with
         | |- context [if ?b then _ else _] => destruct b
         | |- context [match ?x with _ => _ end] => destruct x
         end; try discriminate; now intros [= _ <- <-].
Qed.

Lemma content_length_is_body_length_witness :
  do_GET plain_target
         (template_disk (lit "faq.html") (lit "<h1>{{ title }}</h1>") Absent)
         (lit "/faq")
  = Response (lit "text/html; charset=utf-8") 45
             (lit "<h1>Frequently Asked Questions - WasmWiz</h1>")
  /\ 45 = length (lit "<h1>Frequently Asked Questions - WasmWiz</h1>").
Proof.
  split; [reflexivity|].
  apply (content_length_is_body_length plain_target
           (template_disk (lit "faq.html") (lit "<h1>{{ title }}</h1>") Absent)
           (lit "/faq") (lit "text/html; charset=utf-8")).
  reflexivity.
Defined.

(** X14.  A 200 response of [serve_template] is an HTML response whose
    body is the UTF-8 encoding of the render of the template file with the
    context of the route, and whose [Content-Length] counts bytes, not
    characters: for a render of code points below 256, as the strings here
    are, it is the number of characters of the render plus the number of
    its characters from code point 128 on. *)
Theorem template_response (fs : filesystem) (template_file route : str)
        (content_type body : str) (content_length : nat) :
  serve_template fs template_file route
  = Response content_type content_length body ->
  content_type = lit "text/html; charset=utf-8"
  /\ exists content rendered,
      fs (path_join TEMPLATES_DIR template_file) = Readable content
      /\ render_template fs content (serve_context route) = Ok rendered
      /\ body = utf8_encode rendered
      /\ content_length = length rendered + count_non_ascii rendered.
Proof.
  unfold serve_template.
  destruct (fs (path_join TEMPLATES_DIR template_file)) as [| |content];
    try discriminate.
  destruct (render_template fs content (serve_context route)) as [rendered|e]
    eqn:E; [|discriminate].
  intros [= <- <- <-]. split; [reflexivity|].
  exists content, rendered.
  split; [reflexivity|]. split; [exact E|]. split; [reflexivity|].
  apply utf8_encode_length.
Qed.

Lemma template_response_witness :
  serve_template
    (text_of (template_disk (lit "faq.html")
                            ("233"%char :: lit " {{ title }}") Absent))
    (lit "faq.html") (lit "/faq")
  = Response (lit "text/html; charset=utf-8") 39
             ("195"%char :: "169"%char
                :: lit " Frequently Asked Questions - WasmWiz")
  /\ lit "text/html; charset=utf-8" = lit "text/html; charset=utf-8"
  /\ exists content rendered,
      text_of (template_disk (lit "faq.html")
                             ("233"%char :: lit " {{ title }}") Absent)
              (path_join TEMPLATES_DIR (lit "faq.html"))
      = Readable content
      /\ render_template
           (text_of (template_disk (lit "faq.html")
                                   ("233"%char :: lit " {{ title }}") Absent))
           content (serve_context (lit "/faq"))
         = Ok rendered
      /\ "195"%char :: "169"%char
           :: lit " Frequently Asked Questions - WasmWiz"
         = utf8_encode rendered
      /\ 39 = length rendered + count_non_ascii rendered.
Proof.
  split; [reflexivity|].
  apply (template_response
           (text_of (template_disk (lit "faq.html")
                                   ("233"%char :: lit " {{ title }}") Absent))
           (lit "faq.html") (lit "/faq")).
  reflexivity.
Defined.



(** The page of the witness above. *)
Example docs_page_served :
  do_GET plain_target
    (template_disk (lit "docs.html")
       (extends_marker ++ lit "{% block content %} Docs {% endblock %}")
       (Readable (lit "<title>{% block title %}{% endblock %}</title>{% block content %}{% endblock %}")))
    (lit "/docs")
  = Response (lit "text/html; charset=utf-8") 46
             (lit "<title>API Documentation - WasmWiz</title>Docs").
Proof. reflexivity. Qed.



(** X12.  A template file that is a Standalone document made of
    independent conditional class attributes, without two open braces in a
    row, is served with every attribute resolved against the active page
    identifier of the route: an attribute gets the token [active] exactly
    when its target is [get_active_page] of the route. *)
Theorem served_navigation (fs : filesystem) (template_file route : str)
        (occs : list occurrence) (tail : str) :
  fs (path_join TEMPLATES_DIR template_file)
  = Readable (document occs tail) ->
  state_of (document occs tail) = Standalone ->
  contains (lit "{{") (document occs tail) = false ->
  forallb independent occs = true ->
  contains if_open tail = false ->
  serve_template fs template_file route
  = Response (lit "text/html; charset=utf-8")
             (length (utf8_encode (resolved (get_active_page route) occs tail)))
             (utf8_encode (resolved (get_active_page route) occs tail)).
Proof.
  intros Hf Hs Hb Hocc Htail. unfold serve_template. rewrite Hf.
  rewrite (render_template_standalone _ _ _ Hs).
  rewrite (substitute_no_braces _ _ Hb).
  rewrite (resolve_active_document _ _ _ Hocc Htail).
  now rewrite serve_context_active_page.
Qed.

Lemma served_navigation_witness :
  text_of (template_disk (lit "faq.html")
                         (document nav_example (lit ">FAQ</a></li>")) Absent)
          (path_join TEMPLATES_DIR (lit "faq.html"))
  = Readable (document nav_example (lit ">FAQ</a></li>"))
  /\ state_of (document nav_example (lit ">FAQ</a></li>")) = Standalone
  /\ contains (lit "{{") (document nav_example (lit ">FAQ</a></li>")) = false
  /\ forallb independent nav_example = true
  /\ contains if_open (lit ">FAQ</a></li>") = false
  /\ serve_template
       (text_of (template_disk (lit "faq.html")
                               (document nav_example (lit ">FAQ</a></li>"))
                               Absent))
       (lit "faq.html") (lit "/faq")
     = Response (lit "text/html; charset=utf-8")
         (length (utf8_encode
                    (resolved (get_active_page (lit "/faq")) nav_example
                              (lit ">FAQ</a></li>"))))
         (utf8_encode
            (resolved (get_active_page (lit "/faq")) nav_example
                      (lit ">FAQ</a></li>"))).
Proof.
  split; [reflexivity|]. split; [reflexivity|]. split; [reflexivity|].
  split; [reflexivity|]. split; [reflexivity|].
  apply served_navigation; reflexivity.
Defined.

(** * Replacement texts with backslashes *)

Section Escapes.

Lemma parse_template_app_literal (a s : str) :
  backslash_free a = true ->
  parse_template (a ++ s)
  = tl <- parse_template s ;; Ok (map TLit a ++ tl).
Proof.
  induction a as [|c a IH]; intros Ha.
  - simpl. now destruct (parse_template s).
  - unfold backslash_free, lacks in Ha. cbn [forallb] in Ha.
    apply andb_true_iff in Ha as [Hc Ha]. apply negb_true_iff in Hc.
    change ((c :: a) ++ s) with (c :: a ++ s).
    rewrite (parse_template_plain _ _ Hc), (IH Ha).
    now destruct (parse_template s).
Qed.

Lemma letter_is_no_digit (c : ascii) :
  is_ascii_letter c = true ->
  Ascii.eqb c "0" = false /\ is_digit c = false.
Proof.
  destruct c as [[|] [|] [|] [|] [|] [|] [|] [|]];
    vm_compute; intros H; (discriminate H || (split; reflexivity)).
Qed.

Lemma parse_escape_unknown_letter (c : ascii) (s : str) :
  is_ascii_letter c = true -> escape_char c = None ->
  Ascii.eqb c "g" = false ->
  parse_escape c s = Raise TemplateError.
Proof.
  intros Hl He Hg. destruct (letter_is_no_digit c Hl) as [H0 Hd].
  unfold parse_escape. now rewrite Hg, H0, Hd, He, Hl.
Qed.

(** A backslash followed by a letter that is no escape makes the template
    invalid, wherever it stands after text without backslash. *)
Lemma parse_template_unknown_letter (a b : str) (c : ascii) :
  backslash_free a = true ->
  is_ascii_letter c = true -> escape_char c = None ->
  Ascii.eqb c "g" = false ->
  parse_template (a ++ backslash :: c :: b) = Raise TemplateError.
Proof.
  intros Ha Hl He Hg.
  rewrite (parse_template_app_literal _ _ Ha), parse_template_escape.
  now rewrite (parse_escape_unknown_letter _ _ Hl He Hg).
Qed.

Lemma parse_template_double_backslash (a b : str) :
  backslash_free a = true -> backslash_free b = true ->
  parse_template (a ++ backslash :: backslash :: b)
  = Ok (map TLit a ++ TLit backslash :: map TLit b).
Proof.
  intros Ha Hb.
  rewrite (parse_template_app_literal _ _ Ha), parse_template_escape.
  change (parse_escape backslash b) with (Ok ([TLit backslash], b)).
  cbn [bind fst snd]. now rewrite (parse_template_literal _ Hb).
Qed.

Lemma expand_template_app (t1 t2 : list titem) (whole : str) :
  expand_template (t1 ++ t2) whole
  = expand_template t1 whole ++ expand_template t2 whole.
Proof. apply flat_map_app. Qed.

(** [re.sub] on a document whose first block is known, for a replacement
    that is a valid template. *)
Lemma sub_block_first_template (name repl pre inner post : str)
      (t : list titem) :
  parse_template repl = Ok t ->
  first_block name pre inner post = true ->
  sub_block name repl (with_block name pre inner post)
  = r <- sub_block name repl post ;;
    Ok (pre ++ expand_template t (block_open name ++ inner ++ block_close)
            ++ r).
Proof.
  intros Hp H. unfold first_block, with_block in *.
  apply andb_true_iff in H as [H1 H2]. apply negb_true_iff in H1, H2.
  unfold sub_block. rewrite Hp. cbn [bind].
  set (m := sub_block_at name t).
  assert (consuming m) as Hm by apply sub_block_at_consuming.
  rewrite (scan_copy m).
  - f_equal. f_equal.
    apply (scan_match m Hm). unfold m, sub_block_at.
    now rewrite (match_block_at_first name inner post H2).
  - rewrite <- H1. apply matches_before_same.
    intros u. symmetry. apply sub_block_at_none.
Qed.

End Escapes.

(** X7.  A child whose content block, once stripped, holds a backslash
    followed by an ASCII letter that is neither [g] nor one of the escapes
    [a b f n r t v], after text without backslash, cannot be composed with
    a readable base: the render raises the error of the replacement
    template, and [serve_template] answers 500. *)
Theorem unknown_escape_fails (fs : filesystem) (ctx : context)
        (base cpre cinner cpost a b : str) (c : ascii) :
  state_of (with_block (lit "content") cpre cinner cpost) = Inheriting ->
  fs base_path = Readable base ->
  first_block (lit "content") cpre cinner cpost = true ->
  strip cinner = a ++ backslash :: c :: b ->
  backslash_free a = true ->
  is_ascii_letter c = true ->
  escape_char c = None ->
  Ascii.eqb c "g" = false ->
  render_template fs (with_block (lit "content") cpre cinner cpost) ctx
  = Raise TemplateError
  /\ (forall template_file route,
         fs (path_join TEMPLATES_DIR template_file)
         = Readable (with_block (lit "content") cpre cinner cpost) ->
         serve_template fs template_file route
         = ServerError (lit "Error rendering template: ") TemplateError).
Proof.
  intros Hs Hb Hf Hstrip Ha Hl He Hg.
  assert (forall ctx',
             render_template fs (with_block (lit "content") cpre cinner cpost)
                             ctx' = Raise TemplateError) as Hr.
  { intros ctx'. unfold render_template, compose. rewrite Hs, Hb.
    unfold splice_content. rewrite (search_block_first _ _ _ _ Hf), Hstrip.
    unfold sub_block.
    now rewrite (parse_template_unknown_letter _ _ _ Ha Hl He Hg). }
  split; [apply Hr|].
  intros template_file route Ht. unfold serve_template. now rewrite Ht, Hr.
Qed.

Lemma unknown_escape_fails_witness :
  state_of (with_block (lit "content") extends_marker
                       (lit " <script>/x\d+/</script> ") [])
  = Inheriting
  /\ only_base (Readable (lit "<p>{% block content %}{% endblock %}</p>"))
               base_path
     = Readable (lit "<p>{% block content %}{% endblock %}</p>")
  /\ first_block (lit "content") extends_marker
                 (lit " <script>/x\d+/</script> ") [] = true
  /\ strip (lit " <script>/x\d+/</script> ")
     = lit "<script>/x" ++ backslash :: "d"%char :: lit "+/</script>"
  /\ backslash_free (lit "<script>/x") = true
  /\ is_ascii_letter "d" = true
  /\ escape_char "d" = None
  /\ Ascii.eqb "d" "g" = false
  /\ render_template
       (only_base (Readable (lit "<p>{% block content %}{% endblock %}</p>")))
       (with_block (lit "content") extends_marker
                   (lit " <script>/x\d+/</script> ") [])
       []
     = Raise TemplateError
  /\ (forall template_file route,
         only_base (Readable (lit "<p>{% block content %}{% endblock %}</p>"))
                   (path_join TEMPLATES_DIR template_file)
         = Readable (with_block (lit "content") extends_marker
                                (lit " <script>/x\d+/</script> ") []) ->
         serve_template
           (only_base (Readable (lit "<p>{% block content %}{% endblock %}</p>")))
           template_file route
         = ServerError (lit "Error rendering template: ") TemplateError).
Proof.
  do 8 (split; [reflexivity|]).
  apply (unknown_escape_fails
           (only_base (Readable (lit "<p>{% block content %}{% endblock %}</p>")))
           [] (lit "<p>{% block content %}{% endblock %}</p>")
           extends_marker (lit " <script>/x\d+/</script> ") []
           (lit "<script>/x") (lit "+/</script>") "d"%char);
    reflexivity.
Defined.

(** X8.  The text put in place of a block is the expansion of the
    replacement as a template, not the replacement itself: two backslashes
    in a row are spliced as one, and the reference [\g<0>] is spliced as
    the replaced block, delimiters included. *)
Theorem replacement_is_expanded (name pre inner post a b : str) :
  first_block name pre inner post = true ->
  backslash_free a = true ->
  backslash_free b = true ->
  sub_block name (a ++ backslash :: backslash :: b)
            (with_block name pre inner post)
  = (r <- sub_block name (a ++ backslash :: backslash :: b) post ;;
     Ok (pre ++ (a ++ backslash :: b) ++ r))
  /\ sub_block name (lit "\g<0>") (with_block name pre inner post)
     = (r <- sub_block name (lit "\g<0>") post ;;
        Ok (pre ++ (block_open name ++ inner ++ block_close) ++ r)).
Proof.
  intros Hf Ha Hb. split.
  - rewrite (sub_block_first_template _ _ _ _ _ _
               (parse_template_double_backslash a b Ha Hb) Hf).
    rewrite expand_template_app.
    change (TLit backslash :: map TLit b)
      with (map TLit (backslash :: b)).
    now rewrite !expand_template_literal.
  - rewrite (sub_block_first_template _ (lit "\g<0>") _ _ _ [TGroup0]
               eq_refl Hf).
    unfold expand_template. cbn [flat_map]. now rewrite app_nil_r.
Qed.

Lemma replacement_is_expanded_witness :
  first_block (lit "content") (lit "<p>") (lit "old") (lit "</p>") = true
  /\ backslash_free (lit "C:") = true
  /\ backslash_free (lit "tmp") = true
  /\ sub_block (lit "content") (lit "C:" ++ backslash :: backslash :: lit "tmp")
               (with_block (lit "content") (lit "<p>") (lit "old") (lit "</p>"))
     = (r <- sub_block (lit "content")
                       (lit "C:" ++ backslash :: backslash :: lit "tmp")
                       (lit "</p>") ;;
        Ok (lit "<p>" ++ (lit "C:" ++ backslash :: lit "tmp") ++ r))
  /\ sub_block (lit "content") (lit "\g<0>")
               (with_block (lit "content") (lit "<p>") (lit "old") (lit "</p>"))
     = (r <- sub_block (lit "content") (lit "\g<0>") (lit "</p>") ;;
        Ok (lit "<p>"
              ++ (block_open (lit "content") ++ lit "old" ++ block_close)
              ++ r)).
Proof.
  do 3 (split; [reflexivity|]).
  apply replacement_is_expanded; reflexivity.
Defined.

(** * Resolved placeholders *)

Section Resolved.

Lemma fill_key_hole_free (k v : str) (ps : list piece) :
  hole_free k (map (fill_key k v) ps) = true.
Proof.
  unfold hole_free. induction ps as [|p ps IH]; [reflexivity|].
  cbn [map forallb]. rewrite IH, andb_true_r.
  destruct p as [t|k']; cbn [fill_key]; [reflexivity|].
  destruct (str_eqb k k') eqn:E; [reflexivity|]. now rewrite E.
Qed.

Lemma fill_key_keeps_hole_free (k k' v : str) (ps : list piece) :
  hole_free k ps = true -> hole_free k (map (fill_key k' v) ps) = true.
Proof.
  unfold hole_free. induction ps as [|p ps IH]; intros H; [reflexivity|].
  cbn [map forallb] in *. apply andb_true_iff in H as [Hp H].
  rewrite (IH H), andb_true_r.
  destruct p as [t|k'']; cbn [fill_key]; [reflexivity|].
  now destruct (str_eqb k' k'').
Qed.

Lemma fill_key_absent (k v : str) (ps : list piece) :
  hole_free k ps = true -> map (fill_key k v) ps = ps.
Proof.
  unfold hole_free. induction ps as [|p ps IH]; intros H; [reflexivity|].
  cbn [map forallb] in *. apply andb_true_iff in H as [Hp H].
  rewrite (IH H). f_equal.
  destruct p as [t|k']; cbn [fill_key]; [reflexivity|].
  apply negb_true_iff in Hp. now rewrite Hp.
Qed.

Lemma fill_all_well_formed (ctx : context) (ps : list piece) :
  plain_context ctx -> forallb well_formed ps = true ->
  forallb well_formed (fill_all ctx ps) = true.
Proof.
  unfold fill_all. revert ps.
  induction ctx as [|[k v] ctx IH]; intros ps Hctx Hps; [exact Hps|].
  apply Forall_cons_iff in Hctx as [[_ Hv] Hctx]. cbn [fst snd] in Hv.
  cbn [fold_left fst snd]. apply IH; [exact Hctx|].
  now apply fill_key_well_formed.
Qed.

Lemma fill_all_keeps_hole_free (k : str) (ctx : context) (ps : list piece) :
  hole_free k ps = true -> hole_free k (fill_all ctx ps) = true.
Proof.
  unfold fill_all. revert ps.
  induction ctx as [|[k' v] ctx IH]; intros ps H; [exact H|].
  cbn [fold_left fst snd]. apply IH. now apply fill_key_keeps_hole_free.
Qed.

Lemma fill_all_hole_free (k : str) (ctx : context) (ps : list piece) :
  In k (map fst ctx) -> hole_free k (fill_all ctx ps) = true.
Proof.
  unfold fill_all. revert ps.
  induction ctx as [|[k' v] ctx IH]; intros ps Hin; [contradiction|].
  cbn [fold_left fst snd]. cbn [map fst In] in Hin. destruct Hin as [->|Hin].
  - apply (fill_all_keeps_hole_free k ctx). apply fill_key_hole_free.
  - now apply IH.
Qed.

(** The sequence of replacements, on the pieces of the document. *)
Lemma substitute_fill_all (ctx : context) (ps : list piece) :
  plain_context ctx -> forallb well_formed ps = true ->
  substitute ctx (flatten ps) = flatten (fill_all ctx ps).
Proof.
  unfold fill_all. revert ps.
  induction ctx as [|[k v] ctx IH]; intros ps Hctx Hps; [reflexivity|].
  apply Forall_cons_iff in Hctx as [[Hk Hv] Hctx]. cbn [fst snd] in Hk, Hv.
  rewrite substitute_cons, replace_flatten by assumption.
  cbn [fold_left fst snd]. apply IH; [exact Hctx|].
  now apply fill_key_well_formed.
Qed.

(** A replacement by the empty text shortens every text in which its
    pattern occurs. *)
Lemma replace_shortens (old d : str) :
  old <> [] -> contains old d = true ->
  length (replace old [] d) < length d.
Proof.
  intros Hold Hd. destruct old as [|x old]; [congruence|].
  unfold replace. set (p := x :: old) in *.
  apply contains_true in Hd as (pre & post & ->).
  apply scan_length_lt with (n := S (length pre)).
  - now apply replace_at_consuming.
  - intros s out rest. unfold replace_at.
    destruct (strip_prefix p s) as [r|] eqn:E; [|discriminate].
    simpl. intros [= <- <-]. apply strip_prefix_Some in E. subst s.
    rewrite length_app. unfold p. simpl. lia.
  - apply matches_before_occurrence with (r := ([], post)); [|lia].
    unfold replace_at. now rewrite strip_prefix_app.
Qed.

(** A well-formed document without hole for a key does not hold the
    placeholder of the key. *)
Lemma hole_free_no_placeholder (k : str) (ps : list piece) :
  brace_free k = true -> forallb well_formed ps = true ->
  hole_free k ps = true ->
  contains (placeholder k) (flatten ps) = false.
Proof.
  intros Hk Hps Hh.
  destruct (contains (placeholder k) (flatten ps)) eqn:E; [|reflexivity].
  apply (replace_shortens _ _ (placeholder_not_nil k)) in E.
  rewrite (replace_flatten k [] ps Hk Hps), (fill_key_absent _ _ _ Hh) in E.
  lia.
Qed.

End Resolved.

(** X15.  On a well-formed document, with a context whose keys have no
    brace and whose values are plain text, variable substitution leaves no
    placeholder of a key of the context in its output. *)
Theorem context_keys_are_resolved (ctx : context) (ps : list piece) (k : str) :
  plain_context ctx ->
  forallb well_formed ps = true ->
  In k (map fst ctx) ->
  contains (placeholder k) (substitute ctx (flatten ps)) = false.
Proof.
  intros Hctx Hps Hin. rewrite (substitute_fill_all _ _ Hctx Hps).
  apply hole_free_no_placeholder.
  - unfold plain_context in Hctx. rewrite Forall_forall in Hctx.
    apply in_map_iff in Hin as ([k' v] & <- & Hin).
    now destruct (Hctx _ Hin).
  - now apply fill_all_well_formed.
  - now apply fill_all_hole_free.
Qed.

Lemma context_keys_are_resolved_witness :
  plain_context (serve_context (lit "/docs"))
  /\ forallb well_formed
       [Text (lit "<title>"); Hole (lit "title");
        Text (lit "</title>{% if x %}<input value="); Hole (lit "csrf_token");
        Text (lit ">"); Hole (lit "user"); Hole (lit "title")] = true
  /\ In (lit "title") (map fst (serve_context (lit "/docs")))
  /\ contains (placeholder (lit "title"))
       (substitute (serve_context (lit "/docs"))
          (flatten
             [Text (lit "<title>"); Hole (lit "title");
              Text (lit "</title>{% if x %}<input value=");
              Hole (lit "csrf_token"); Text (lit ">"); Hole (lit "user");
              Hole (lit "title")])) = false.
Proof.
  assert (plain_context (serve_context (lit "/docs"))) as Hctx.
  { repeat constructor. }
  split; [exact Hctx|]. split; [reflexivity|]. split; [now left|].
  apply context_keys_are_resolved; [exact Hctx|reflexivity|now left].
Defined.

Section Blank.

Lemma lstrip_blank (s : str) : forallb isspace s = true -> lstrip s = [].
Proof.
  induction s as [|c s IH]; [reflexivity|]. cbn [forallb lstrip].
  intros H. apply andb_true_iff in H as [Hc Hs]. now rewrite Hc, IH.
Qed.

Lemma strip_blank (s : str) : forallb isspace s = true -> strip s = [].
Proof. intros H. unfold strip. now rewrite (lstrip_blank _ H). Qed.

End Blank.

(** X16.  A child whose content block is empty or holds nothing but
    white space erases the content block of the base: the block, its
    default text and its delimiters are replaced with nothing. *)
Theorem blank_block_erases (cpre cinner cpost bpre binner bpost : str) :
  first_block (lit "content") cpre cinner cpost = true ->
  first_block (lit "content") bpre binner bpost = true ->
  forallb isspace cinner = true ->
  exists r,
    splice_content (with_block (lit "content") cpre cinner cpost) bpost = Ok r
    /\ splice_content (with_block (lit "content") cpre cinner cpost)
                      (with_block (lit "content") bpre binner bpost)
       = Ok (bpre ++ r).
Proof.
  intros Hc Hb Hs. unfold splice_content.
  rewrite (search_block_first _ _ _ _ Hc), (strip_blank _ Hs).
  destruct (sub_block_literal_ok (lit "content") [] bpost eq_refl) as [r Hr].
  exists r. split; [exact Hr|].
  rewrite (sub_block_first (lit "content") [] _ _ _ eq_refl Hb).
  now rewrite Hr.
Qed.

Lemma blank_block_erases_witness :
  first_block (lit "content") extends_marker (lit "  ") [] = true
  /\ first_block (lit "content") (lit "<main>") (lit "Welcome") (lit "</main>")
     = true
  /\ forallb isspace (lit "  ") = true
  /\ exists r,
      splice_content (with_block (lit "content") extends_marker (lit "  ") [])
                     (lit "</main>") = Ok r
      /\ splice_content
           (with_block (lit "content") extends_marker (lit "  ") [])
           (with_block (lit "content") (lit "<main>") (lit "Welcome")
                       (lit "</main>"))
         = Ok (lit "<main>" ++ r).
Proof.
  do 3 (split; [reflexivity|]).
  apply blank_block_erases; reflexivity.
Defined.
